(** * shelltoken: a shallow embedding of [shelltoken.go] and its properties

    The Go package splits a command line into tokens, honouring single
    quotes, double quotes and backslashes, and then separates the leading
    [NAME=VALUE] tokens (the environment) from the command and its
    arguments.

    Go strings are byte sequences, [for pos, char := range str] decodes them
    as UTF-8 and hands out byte offsets, and [str[pos+1]] indexes bytes: the
    embedding keeps all three, so a string is a list of bytes, a rune is an
    integer, and an index out of range is the run-time panic it is in Go. *)

From Stdlib Require Import Ascii String Bool Arith ZArith Lia List.
Import ListNotations.

Local Open Scope Z_scope.

(** ** Go values *)

(** A Go [string]: an immutable sequence of bytes. *)
Definition gostring := list ascii.

(** A Go [rune] is an [int32]; the runes met here are byte values, decoded
    code points or [RuneError], so no wrap-around ever applies. *)
Definition rune := Z.

(** A string literal of the source, byte for byte. *)
Definition lit (s : string) : gostring := list_ascii_of_string s.

Definition byteZ (b : ascii) : Z := Z.of_N (N_of_ascii b).

Definition byte_of (z : Z) : ascii := ascii_of_N (Z.to_N z).

(** The rune literals of the source. *)
Definition backslash : rune := 92.
Definition dquote : rune := 34.
Definition squote : rune := 39.

(** The same characters as bytes, for writing inputs. *)
Definition bBackslash : ascii := "092"%char.
Definition bDquote : ascii := "034"%char.
Definition bSquote : ascii := "039"%char.
Definition bTab : ascii := "009"%char.
Definition bNewline : ascii := "010"%char.
Definition bVTab : ascii := "011"%char.
Definition bFormFeed : ascii := "012"%char.
Definition bReturn : ascii := "013"%char.
Definition bSpace : ascii := "032"%char.

(** ** Outcomes

    A Go function either returns or panics. *)
Inductive result (A : Type) : Type :=
| Ok (a : A)
| Panic.
Arguments Ok {A} a.
Arguments Panic {A}.

Definition bind {A B : Type} (r : result A) (k : A -> result B) : result B :=
  match r with
  | Ok a => k a
  | Panic => Panic
  end.

Notation "x <- r ;; k" := (bind r (fun x => k))
  (at level 61, r at next level, right associativity).

(** ** The pieces of package [unicode/utf8] the code relies on

    Modelled from the Go standard library: [range] over a string, the
    conversion [string([]rune)] and [strings.TrimSpace] all go through the
    UTF-8 coder of package [unicode/utf8]. *)
Module utf8.

Definition RuneError : rune := 65533.   (* U+FFFD *)
Definition RuneSelf : Z := 128.
Definition MaxRune : rune := 1114111.   (* U+10FFFF *)

Definition between (lo hi x : Z) : bool := (lo <=? x) && (x <=? hi).

(** A continuation byte, [10xxxxxx]. *)
Definition cont (b : ascii) : bool := between 128 191 (byteZ b).

(** The range the second byte must lie in, by first byte (the accept ranges
    of the Go decoder: no overlong forms, no surrogates, nothing above
    [MaxRune]). *)
Definition second_ok (x0 : Z) (b1 : ascii) : bool :=
  let x1 := byteZ b1 in
  if x0 =? 224 then between 160 191 x1
  else if x0 =? 237 then between 128 159 x1
  else if x0 =? 240 then between 144 191 x1
  else if x0 =? 244 then between 128 143 x1
  else between 128 191 x1.

Definition low6 (b : ascii) : Z := Z.land (byteZ b) 63.

(** [utf8.DecodeRuneInString]: the first rune of [s] and its width in bytes;
    [(RuneError, 0)] on the empty string and [(RuneError, 1)] on an invalid
    encoding. *)
Definition DecodeRuneInString (s : gostring) : rune * nat :=
  match s with
  | [] => (RuneError, 0%nat)
  | b0 :: t =>
    let x0 := byteZ b0 in
    if x0 <? RuneSelf then (x0, 1%nat)
    else if between 194 223 x0 then
      match t with
      | b1 :: _ =>
        if second_ok x0 b1
        then (Z.lor (Z.shiftl (Z.land x0 31) 6) (low6 b1), 2%nat)
        else (RuneError, 1%nat)
      | _ => (RuneError, 1%nat)
      end
    else if between 224 239 x0 then
      match t with
      | b1 :: b2 :: _ =>
        if second_ok x0 b1 && cont b2
        then (Z.lor (Z.shiftl (Z.land x0 15) 12)
                (Z.lor (Z.shiftl (low6 b1) 6) (low6 b2)), 3%nat)
        else (RuneError, 1%nat)
      | _ => (RuneError, 1%nat)
      end
    else if between 240 244 x0 then
      match t with
      | b1 :: b2 :: b3 :: _ =>
        if second_ok x0 b1 && cont b2 && cont b3
        then (Z.lor (Z.shiftl (Z.land x0 7) 18)
                (Z.lor (Z.shiftl (low6 b1) 12)
                   (Z.lor (Z.shiftl (low6 b2) 6) (low6 b3))), 4%nat)
        else (RuneError, 1%nat)
      | _ => (RuneError, 1%nat)
      end
    else (RuneError, 1%nat)
  end.

(** [utf8.RuneStart]: the byte is not a continuation byte. *)
Definition RuneStart (b : ascii) : bool :=
  negb (Z.land (byteZ b) 192 =? 128).

(** The backward search of [DecodeLastRuneInString]:
    [for start--; start >= lim; start-- { if RuneStart(s[start]) { break } }],
    entered with [start] already decremented; it runs at most [UTFMax - 1]
    times. *)
Fixpoint lastStart (n : nat) (s : gostring) (start lim : Z) : Z :=
  match n with
  | O => start
  | S n' =>
    if start <? lim then start
    else
      match nth_error s (Z.to_nat start) with
      | Some b => if RuneStart b then start else lastStart n' s (start - 1) lim
      | None => start
      end
  end.

(** [utf8.DecodeLastRuneInString]: the last rune of [s] and its width. *)
Definition DecodeLastRuneInString (s : gostring) : rune * nat :=
  let end_ := Z.of_nat (length s) in
  if end_ =? 0 then (RuneError, 0%nat)
  else
    match nth_error s (Z.to_nat (end_ - 1)) with
    | None => (RuneError, 0%nat)
    | Some b =>
      if byteZ b <? RuneSelf then (byteZ b, 1%nat)
      else
        let lim := Z.max (end_ - 4) 0 in
        let start := lastStart 4 s (end_ - 2) lim in
        let start := if start <? 0 then 0 else start in
        let '(r, size) :=
          DecodeRuneInString
            (firstn (Z.to_nat (end_ - start)) (skipn (Z.to_nat start) s)) in
        if start + Z.of_nat size =? end_ then (r, size) else (RuneError, 1%nat)
    end.

(** [utf8.AppendRune]: the UTF-8 encoding of one rune; a rune that is out of
    range or a surrogate half is encoded as [RuneError]. *)
Definition encode3 (r : rune) : gostring :=
  [ byte_of (Z.lor 224 (Z.shiftr r 12));
    byte_of (Z.lor 128 (Z.land (Z.shiftr r 6) 63));
    byte_of (Z.lor 128 (Z.land r 63)) ].

Definition EncodeRune (r : rune) : gostring :=
  if between 0 127 r then [byte_of r]
  else if between 128 2047 r then
    [ byte_of (Z.lor 192 (Z.shiftr r 6));
      byte_of (Z.lor 128 (Z.land r 63)) ]
  else if (r <? 0) || (MaxRune <? r) || between 55296 57343 r then
    encode3 RuneError
  else if r <=? 65535 then encode3 r
  else
    [ byte_of (Z.lor 240 (Z.shiftr r 18));
      byte_of (Z.lor 128 (Z.land (Z.shiftr r 12) 63));
      byte_of (Z.lor 128 (Z.land (Z.shiftr r 6) 63));
      byte_of (Z.lor 128 (Z.land r 63)) ].

End utf8.

(** [for pos, char := range str]: the pairs (byte offset, rune) the loop
    hands to its body, in order.  [skip] counts the bytes of the current
    rune still to be passed over. *)
Fixpoint rangeFrom (pos skip : nat) (s : gostring) : list (nat * rune) :=
  match s with
  | [] => []
  | _ :: t =>
    match skip with
    | S k => rangeFrom (S pos) k t
    | O =>
      let '(r, w) := utf8.DecodeRuneInString s in
      (pos, r) :: rangeFrom (S pos) (w - 1) t
    end
  end.

Definition rangeString (s : gostring) : list (nat * rune) := rangeFrom 0 0 s.

(** The conversion [string(token)] of a [[]rune] to a string. *)
Definition string_of_runes (t : list rune) : gostring :=
  flat_map utf8.EncodeRune t.

(** ** The pieces of packages [unicode] and [strings] the code relies on

    Modelled from the Go standard library, which is not part of the
    repository: [unicode.IsSpace], [strings.TrimSpace],
    [strings.ContainsRune] and [strings.Contains]. *)
Module unicode.

(** [unicode.IsSpace]: Unicode's White Space property.  In Latin-1 these are
    tab, newline, vertical tab, form feed, carriage return, space, U+0085
    and U+00A0; beyond it U+1680, U+2000..U+200A, U+2028, U+2029, U+202F,
    U+205F and U+3000. *)
Definition IsSpace (r : rune) : bool :=
  utf8.between 9 13 r || (r =? 32) || (r =? 133) || (r =? 160)
  || (r =? 5760) || utf8.between 8192 8202 r || utf8.between 8232 8233 r
  || (r =? 8239) || (r =? 8287) || (r =? 12288).

End unicode.

Module strings.

(** [indexFunc(s, f, truth)]: the offset of the first rune [r] of [s] with
    [f(r) == truth]; [None] stands for Go's [-1]. *)
Definition indexFunc (s : gostring) (f : rune -> bool) (truth : bool)
  : option nat :=
  option_map fst (find (fun pr => Bool.eqb (f (snd pr)) truth) (rangeString s)).

(** [lastIndexFunc(s, f, truth)]:
    [for i := len(s); i > 0; { r, size := DecodeLastRuneInString(s[0:i]);
    i -= size; if f(r) == truth { return i } }; return -1].  Every round
    lowers [i], so [len(s)] rounds are enough. *)
Fixpoint lastIndexLoop (fuel i : nat) (s : gostring) (f : rune -> bool)
  (truth : bool) : option nat :=
  match fuel with
  | O => None
  | S fuel' =>
    if (i =? 0)%nat then None
    else
      let '(r, size) := utf8.DecodeLastRuneInString (firstn i s) in
      let i' := (i - size)%nat in
      if Bool.eqb (f r) truth then Some i'
      else lastIndexLoop fuel' i' s f truth
  end.

Definition lastIndexFunc (s : gostring) (f : rune -> bool) (truth : bool)
  : option nat :=
  lastIndexLoop (length s) (length s) s f truth.

(** [strings.TrimLeftFunc]. *)
Definition TrimLeftFunc (s : gostring) (f : rune -> bool) : gostring :=
  match indexFunc s f false with
  | None => []
  | Some i => skipn i s
  end.

(** [strings.TrimRightFunc]: the string up to and including the last rune
    that does not satisfy [f]. *)
Definition TrimRightFunc (s : gostring) (f : rune -> bool) : gostring :=
  match lastIndexFunc s f false with
  | None => []
  | Some i =>
    match nth_error s i with
    | Some b =>
      if utf8.RuneSelf <=? byteZ b
      then firstn (i + snd (utf8.DecodeRuneInString (skipn i s))) s
      else firstn (i + 1) s
    | None => firstn (i + 1) s
    end
  end.

(** [strings.TrimFunc]. *)
Definition TrimFunc (s : gostring) (f : rune -> bool) : gostring :=
  TrimRightFunc (TrimLeftFunc s f) f.

(** [strings.TrimSpace]: [s] without its leading and trailing white space,
    as defined by Unicode. *)
Definition TrimSpace (s : gostring) : gostring := TrimFunc s unicode.IsSpace.

(** [strings.ContainsRune(s, r)]: the rune [r] occurs in [s]. *)
Definition ContainsRune (s : gostring) (r : rune) : bool :=
  existsb (fun pr => snd pr =? r) (rangeString s).

(** [strings.HasPrefix] and [strings.Contains]. *)
Fixpoint HasPrefix (s prefix : gostring) : bool :=
  match prefix, s with
  | [], _ => true
  | _ :: _, [] => false
  | p :: prefix', c :: s' => Ascii.eqb c p && HasPrefix s' prefix'
  end.

Fixpoint Contains (s substr : gostring) : bool :=
  HasPrefix s substr
  || match s with
     | [] => false
     | _ :: s' => Contains s' substr
     end.

End strings.

(** ** [shelltoken.go] *)

Inductive error : Type := ErrUnbalancedQuotes.

(** The local variables of [Parse] that the loop and the closure [addToken]
    share.  [token] is a [[]rune] that may be [nil]: [None] is the nil
    slice, [Some []] the empty slice [make([]rune, 0)].  [argv] is the named
    result, which collects the finished tokens. *)
Record state : Type := mkState {
  token : option (list rune);
  inQuotes : bool;
  inDbl : bool;
  escaped : bool;
  argv : list gostring
}.

(** The values before the loop (lines 24-30). *)
Definition init : state :=
  {| token := None; inQuotes := false; inDbl := false; escaped := false;
     argv := [] |}.

Definition separator : gostring := [bSpace; bTab; bNewline; bReturn].

Definition set_escaped (b : bool) (st : state) : state :=
  {| token := token st; inQuotes := inQuotes st; inDbl := inDbl st;
     escaped := b; argv := argv st |}.

Definition set_inQuotes (b : bool) (st : state) : state :=
  {| token := token st; inQuotes := b; inDbl := inDbl st;
     escaped := escaped st; argv := argv st |}.

Definition set_inDbl (b : bool) (st : state) : state :=
  {| token := token st; inQuotes := inQuotes st; inDbl := b;
     escaped := escaped st; argv := argv st |}.

Definition set_token (t : option (list rune)) (st : state) : state :=
  {| token := t; inQuotes := inQuotes st; inDbl := inDbl st;
     escaped := escaped st; argv := argv st |}.

(** [if token == nil { token = make([]rune, 0) }]. *)
Definition makeToken (st : state) : state :=
  match token st with
  | None => set_token (Some []) st
  | Some _ => st
  end.

(** The runes of the current token, none when it is nil. *)
Definition runes (st : state) : list rune :=
  match token st with
  | None => []
  | Some t => t
  end.

(** The closure [addToken] (lines 32-40). *)
Definition addToken (char : rune) (st : state) : state :=
  let st := set_escaped false st in
  let st := makeToken st in
  set_token (Some (runes st ++ [char])) st.

(** [argv = append(argv, string(token)); token = nil] (lines 90-91). *)
Definition flushToken (t : list rune) (st : state) : state :=
  {| token := None; inQuotes := inQuotes st; inDbl := inDbl st;
     escaped := escaped st; argv := argv st ++ [string_of_runes t] |}.

(** One round of the loop (lines 43-95) at byte offset [pos] with rune
    [char].  [str[pos+1]] panics when [pos+1] is not an index of [str]. *)
Definition body (str : gostring) (pos : nat) (char : rune) (st : state)
  : result state :=
  if negb (escaped st) && (char =? backslash) then
    let st := set_escaped true st in
    if inQuotes st then
      Ok (addToken char st)
    else if inDbl st then
      if (pos <? length str)%nat then
        match nth_error str (pos + 1) with
        | None => Panic
        | Some next =>
          if byteZ next =? dquote then Ok st
          else if byteZ next =? backslash then Ok st
          else Ok (addToken char st)
        end
      else Ok st
    else Ok st
  else if negb (escaped st) && (char =? dquote) then
    let st := makeToken st in
    if negb (inQuotes st) then Ok (set_inDbl (negb (inDbl st)) st)
    else Ok (addToken char st)
  else if negb (escaped st) && (char =? squote) then
    let st := makeToken st in
    if negb (inDbl st) then Ok (set_inQuotes (negb (inQuotes st)) st)
    else Ok (addToken char st)
  else if negb (escaped st) && strings.ContainsRune separator char then
    if inQuotes st || inDbl st then Ok (addToken char st)
    else
      match token st with
      | Some t => Ok (flushToken t st)
      | None => Ok st
      end
  else Ok (addToken char st).

(** Running a loop body over the pairs of a [range], stopping at a panic. *)
Fixpoint forRange (f : nat -> rune -> state -> result state)
  (l : list (nat * rune)) (st : state) : result state :=
  match l with
  | [] => Ok st
  | (pos, char) :: l' => st' <- f pos char st ;; forRange f l' st'
  end.

(** The loop of [Parse] (lines 42-96) over the trimmed string. *)
Definition scan (str : gostring) : result state :=
  forRange (body str) (rangeString str) init.

(** After the loop (lines 98-104): the last token, or an empty one when no
    token is open, is appended. *)
Definition lastToken (st : state) : list gostring :=
  match token st with
  | None => argv st ++ [lit ""]
  | Some t => argv st ++ [string_of_runes t]
  end.

(** [extractEnvFromArgv] (lines 118-126).  The loop runs over [rest], the
    part of [argv] from index [i] on; falling out of it returns the named
    results as they are, two nil slices. *)
Fixpoint extractLoop (argv : list gostring) (i : nat) (rest : list gostring)
  : list gostring * list gostring :=
  match rest with
  | [] => ([], [])
  | s :: rest' =>
    if negb (strings.Contains s (lit "=")) then (firstn i argv, skipn i argv)
    else extractLoop argv (S i) rest'
  end.

Definition extractEnvFromArgv (argv : list gostring)
  : list gostring * list gostring :=
  extractLoop argv 0 argv.

(** What [Parse] returns: [env], [argv] and [err].  A nil slice and an empty
    one are both the empty list. *)
Definition returned : Type := list gostring * list gostring * option error.

(** Lines 106-115, from the state the loop ended in. *)
Definition finish (st : state) : returned :=
  let tokens := lastToken st in
  if inQuotes st then ([], [], Some ErrUnbalancedQuotes)
  else if inDbl st then ([], [], Some ErrUnbalancedQuotes)
  else
    let '(env, args) := extractEnvFromArgv tokens in
    (env, args, None).

(** [Parse] (lines 23-116). *)
Definition Parse (str : gostring) : result returned :=
  let str := strings.TrimSpace str in
  st <- scan str ;;
  Ok (finish st).

(** The tokenizer stage: the token list as it stands at line 104, before
    the quote check and the split. *)
Definition tokens (str : gostring) : result (list gostring) :=
  st <- scan (strings.TrimSpace str) ;;
  Ok (lastToken st).

(** ** Points of the scan

    [visited str st]: the loop over [str] is in state [st] at the start of
    some round, or at its end. *)
Definition visited (str : gostring) (st : state) : Prop :=
  exists done todo,
    rangeString str = done ++ todo /\ forRange (body str) done init = Ok st.

(** The bytes [unicode.IsSpace] accepts among the ASCII ones. *)
Definition asciiSpace (b : ascii) : Prop :=
  unicode.IsSpace (byteZ b) = true /\ byteZ b < utf8.RuneSelf.

(** An ASCII byte that is not white space. *)
Definition asciiPlain (b : ascii) : Prop :=
  unicode.IsSpace (byteZ b) = false /\ byteZ b < utf8.RuneSelf.

(** A string that is empty or begins and ends with an ASCII byte that is not
    white space. *)
Definition plainEnds (s : gostring) : Prop :=
  match s with
  | [] => True
  | b :: _ => asciiPlain b /\ asciiPlain (last s b)
  end.

(** Following the words of the specification, for comparison with
    [strings.TrimSpace]: the input without its leading and trailing
    characters of the set space, tab, newline, carriage return. *)
Definition inSeparatorSet (b : ascii) : bool :=
  existsb (Ascii.eqb b) separator.

Fixpoint dropSeparators (s : gostring) : gostring :=
  match s with
  | b :: s' => if inSeparatorSet b then dropSeparators s' else s
  | [] => []
  end.

Definition trimSeparatorSet (s : gostring) : gostring :=
  rev (dropSeparators (rev (dropSeparators s))).

(** ** Command lines made of ASCII pieces *)

Definition isASCII (b : ascii) : bool := byteZ b <? utf8.RuneSelf.

(** A separator byte of [Parse]. *)
Definition isSep (b : ascii) : bool :=
  strings.ContainsRune separator (byteZ b).

(** An ASCII byte that is neither white space nor a quote nor a backslash. *)
Definition isPlain (b : ascii) : bool :=
  isASCII b && negb (unicode.IsSpace (byteZ b))
  && negb (byteZ b =? backslash) && negb (byteZ b =? dquote)
  && negb (byteZ b =? squote).

(** The loop rounds for a run [s] of one-byte runes that starts at offset
    [p] of [str]. *)
Definition feed (str : gostring) (p : nat) (s : gostring) (st : state)
  : result state :=
  forRange (body str) (combine (seq p (length s)) (map byteZ s)) st.

(** [addToken] for each rune of [l] in turn. *)
Definition addTokens (l : list rune) (st : state) : state :=
  fold_left (fun st c => addToken c st) l st.

(** The state [st] with the open token [t] and [escaped] off. *)
Definition withRunes (t : list rune) (st : state) : state :=
  {| token := Some t; inQuotes := inQuotes st; inDbl := inDbl st;
     escaped := false; argv := argv st |}.

(** An ASCII byte that can stand between single quotes, and one that can
    stand between double quotes without a backslash. *)
Definition inSquotes (b : ascii) : bool :=
  isASCII b && negb (byteZ b =? squote).

Definition inDquotes (b : ascii) : bool :=
  isASCII b && negb (byteZ b =? dquote) && negb (byteZ b =? backslash).

(** A Unicode scalar value beyond ASCII: a code point from U+0080 to
    U+10FFFF that is not a surrogate half. *)
Definition isScalar (r : rune) : bool :=
  (utf8.RuneSelf <=? r) && (r <=? utf8.MaxRune)
  && negb (utf8.between 55296 57343 r).

(** The characters with Unicode's White_Space property, one by one: the six
    ASCII ones, U+0085, U+00A0, U+1680, U+2000 to U+200A, U+2028, U+2029,
    U+202F, U+205F and U+3000. *)
Definition whiteSpace : list rune :=
  [9; 10; 11; 12; 13; 32; 133; 160; 5760;
   8192; 8193; 8194; 8195; 8196; 8197; 8198; 8199; 8200; 8201; 8202;
   8232; 8233; 8239; 8287; 12288].

Definition isWhite (r : rune) : bool := existsb (Z.eqb r) whiteSpace.

(** The string begins, or ends, with the UTF-8 encoding of a white space
    character. *)
Definition beginsWithWhite (s : gostring) : bool :=
  existsb (fun r => strings.HasPrefix s (utf8.EncodeRune r)) whiteSpace.

Definition endsWithWhite (s : gostring) : bool :=
  existsb (fun r => strings.HasPrefix (rev s) (rev (utf8.EncodeRune r)))
    whiteSpace.

(** The head of a string that follows a rune boundary: the string is empty
    or begins with a byte that is not a continuation byte. *)
Definition startsRune (u : gostring) : Prop :=
  match u with
  | [] => True
  | b :: _ => utf8.RuneStart b = true
  end.

(** A rune that [EncodeRune] encodes as itself: ASCII or a scalar value
    beyond it. *)
Definition isEncodable (r : rune) : bool :=
  utf8.between 0 127 r || isScalar r.

(** A byte that starts no UTF-8 sequence: a continuation byte, [0xC0],
    [0xC1], or [0xF5] and above. *)
Definition neverLead (b : ascii) : bool :=
  utf8.between 128 193 (byteZ b) || (245 <=? byteZ b).

(** What a backslash followed by the byte [x] leaves in a token inside
    double quotes. *)
Definition dquoteEscape (x : ascii) : gostring :=
  if (byteZ x =? dquote) || (byteZ x =? backslash) then [x]
  else [bBackslash; x].

(** The state with no open token, [escaped] off, the quote modes [q] and [d]
    and the finished tokens [a]. *)
Definition mode (q d : bool) (a : list gostring) : state :=
  {| token := None; inQuotes := q; inDbl := d; escaped := false; argv := a |}.

(** Words with the separator run that follows each, and a last word. *)
Fixpoint joinWords (ws : list (gostring * gostring)) (final : gostring)
  : gostring :=
  match ws with
  | [] => final
  | (w, sep) :: ws' => w ++ sep ++ joinWords ws' final
  end.

(** A word of plain bytes, and a run of separators. *)
Definition isWord (w : gostring) : bool :=
  negb (Nat.eqb (length w) 0) && forallb isPlain w.

Definition isSepRun (s : gostring) : bool :=
  negb (Nat.eqb (length s) 0) && forallb isSep s.

(** The separator runes among those the loop ranges over. *)
Definition separatorRunes (str : gostring) : list (nat * rune) :=
  filter (fun pr => strings.ContainsRune separator (snd pr)) (rangeString str).

(** * Properties *)

(** ** The loop combinator *)

Lemma forRange_app f l1 l2 st :
  forRange f (l1 ++ l2) st = (st' <- forRange f l1 st ;; forRange f l2 st').
Proof.
  revert st; induction l1 as [|[pos char] l1 IH]; intros st; simpl.
  - reflexivity.
  - destruct (f pos char st) as [st1|]; simpl; [apply IH | reflexivity].
Qed.

Lemma forRange_invariant (P : state -> Prop) f l :
  (forall pos char st st', P st -> f pos char st = Ok st' -> P st') ->
  forall st st', P st -> forRange f l st = Ok st' -> P st'.
Proof.
  intros Hstep; induction l as [|[pos char] l IH]; intros st st' HP; simpl.
  - intros [= <-]; exact HP.
  - destruct (f pos char st) as [st1|] eqn:E; simpl; [|discriminate].
    intros H; eapply IH; [eapply Hstep; eassumption | exact H].
Qed.

Lemma forRange_panic f l st :
  forRange f l st = Panic ->
  exists done pos char todo st',
    l = done ++ (pos, char) :: todo
    /\ forRange f done st = Ok st' /\ f pos char st' = Panic.
Proof.
  revert st; induction l as [|[pos char] l IH]; intros st; simpl.
  - discriminate.
  - destruct (f pos char st) as [st1|] eqn:E; simpl.
    + intros H; destruct (IH _ H) as (done & p & c & todo & st' & -> & Hd & Hp).
      exists ((pos, char) :: done), p, c, todo, st'; simpl; rewrite E; simpl.
      auto.
    + intros _; exists [], pos, char, l, st; auto.
Qed.

(** ** One round of the loop *)

(** Splits a goal about [body] along the branches of its two switches. *)
Ltac body_cases st :=
  unfold body, addToken, makeToken, flushToken, runes, set_escaped,
    set_inQuotes, set_inDbl, set_token;
  destruct st as [tok q d e a]; cbn [token inQuotes inDbl escaped argv];
  destruct e, q, d; cbn [negb andb orb];
  repeat match goal with
    | |- context [if ?c then _ else _] =>
        lazymatch c with
        | context [if _ then _ else _] => fail
        | _ => let E := fresh "E" in destruct c eqn:E
        end
    | |- context [match ?c with Some _ => _ | None => _ end] =>
        let E := fresh "E" in destruct c eqn:E
    end;
  cbn [token inQuotes inDbl escaped argv negb andb orb].

Lemma body_panic str pos char st :
  body str pos char st = Panic ->
  char = backslash /\ escaped st = false /\ inQuotes st = false
  /\ inDbl st = true /\ nth_error str (pos + 1) = None.
Proof.
  body_cases st; try discriminate; intros _;
    match goal with H : (char =? backslash) = true |- _ =>
      apply Z.eqb_eq in H; auto
    end.
Qed.

Lemma body_exclusive str pos char st st' :
  inQuotes st && inDbl st = false ->
  body str pos char st = Ok st' ->
  inQuotes st' && inDbl st' = false.
Proof.
  body_cases st; try discriminate; intros _ [= <-]; reflexivity.
Qed.

Lemma visited_exclusive str st :
  visited str st -> inQuotes st && inDbl st = false.
Proof.
  intros (done & todo & _ & H).
  refine (forRange_invariant (fun s => inQuotes s && inDbl s = false)
            (body str) done _ init st eq_refl H).
  intros pos char s s'; apply body_exclusive.
Qed.

Lemma scan_visited str st : scan str = Ok st -> visited str st.
Proof.
  intros H; exists (rangeString str), []; rewrite app_nil_r; auto.
Qed.

(** ** Ranging over a string *)

Lemma byteZ_range b : 0 <= byteZ b < 256.
Proof.
  unfold byteZ; pose proof (N_ascii_bounded b); lia.
Qed.

Lemma cont_ascii b : byteZ b < utf8.RuneSelf -> utf8.cont b = false.
Proof.
  unfold utf8.cont, utf8.between, utf8.RuneSelf; intros H.
  apply andb_false_iff; left; apply Z.leb_gt; lia.
Qed.

Lemma second_ok_ascii x0 b :
  byteZ b < utf8.RuneSelf -> utf8.second_ok x0 b = false.
Proof.
  unfold utf8.second_ok, utf8.between, utf8.RuneSelf; intros H.
  repeat match goal with |- context [if ?c then _ else _] => destruct c end;
    apply andb_false_iff; left; apply Z.leb_gt; lia.
Qed.

(** An ASCII byte decodes to itself. *)
Lemma Decode_ascii b s :
  byteZ b < utf8.RuneSelf ->
  utf8.DecodeRuneInString (b :: s) = (byteZ b, 1%nat).
Proof.
  intros H; unfold utf8.DecodeRuneInString.
  apply Z.ltb_lt in H; rewrite H; reflexivity.
Qed.

(** An ASCII byte is never taken for the continuation of a rune: adding it
    at the end of a string leaves the first rune as it was. *)
Lemma Decode_snoc_ascii s b :
  s <> [] -> byteZ b < utf8.RuneSelf ->
  utf8.DecodeRuneInString (s ++ [b]) = utf8.DecodeRuneInString s.
Proof.
  intros Hs Hb.
  destruct s as [|b0 [|b1 [|b2 [|b3 t]]]]; [congruence| | | |];
    unfold utf8.DecodeRuneInString; cbn [app];
    rewrite ?(second_ok_ascii _ b Hb), ?(cont_ascii b Hb), ?andb_false_r;
    repeat match goal with |- context [if ?c then _ else _] => destruct c end;
    reflexivity.
Qed.

Lemma Decode_width s r w :
  utf8.DecodeRuneInString s = (r, w) ->
  (w <= length s)%nat /\ (s <> [] -> 1 <= w)%nat.
Proof.
  unfold utf8.DecodeRuneInString.
  destruct s as [|b0 [|b1 [|b2 [|b3 t]]]];
    repeat match goal with |- context [if ?c then _ else _] => destruct c end;
    intros [= <- <-]; cbn [length]; split; intros; (congruence || lia).
Qed.

Lemma rangeFrom_snoc_ascii s b :
  byteZ b < utf8.RuneSelf ->
  forall pos skip, (skip <= length s)%nat ->
  rangeFrom pos skip (s ++ [b]) =
  rangeFrom pos skip s ++ [((pos + length s)%nat, byteZ b)].
Proof.
  intros Hb; induction s as [|a t IH]; intros pos skip Hskip.
  - cbn [length] in Hskip; assert (skip = 0%nat) as -> by lia.
    cbn [app rangeFrom]; rewrite (Decode_ascii _ _ Hb); cbn [rangeFrom length].
    rewrite Nat.add_0_r; reflexivity.
  - cbn [app rangeFrom length] in *; destruct skip as [|k].
    + change (a :: t ++ [b]) with ((a :: t) ++ [b]).
      rewrite (Decode_snoc_ascii (a :: t) b) by (congruence || assumption).
      destruct (utf8.DecodeRuneInString (a :: t)) as [r w] eqn:E.
      apply Decode_width in E; cbn [length] in E; destruct E as [E _].
      rewrite IH by lia; cbn [app].
      replace (S pos + length t)%nat with (pos + S (length t))%nat by lia.
      reflexivity.
    + rewrite IH by lia.
      replace (S pos + length t)%nat with (pos + S (length t))%nat by lia.
      reflexivity.
Qed.

(** The loop sees a final ASCII byte as a rune of its own, whatever comes
    before it. *)
Lemma rangeString_snoc_ascii s b :
  byteZ b < utf8.RuneSelf ->
  rangeString (s ++ [b]) = rangeString s ++ [(length s, byteZ b)].
Proof.
  intros Hb; unfold rangeString.
  rewrite (rangeFrom_snoc_ascii s b Hb 0 0) by lia; reflexivity.
Qed.

(** A string of ASCII bytes is ranged over byte by byte. *)
Lemma rangeFrom_ascii s :
  Forall (fun b => byteZ b < utf8.RuneSelf) s ->
  forall pos,
  rangeFrom pos 0 s = combine (seq pos (length s)) (map byteZ s).
Proof.
  induction 1 as [|b t Hb _ IH]; intros pos; cbn [rangeFrom length seq map combine].
  - reflexivity.
  - rewrite (Decode_ascii _ _ Hb); cbn [Nat.sub]; rewrite IH; reflexivity.
Qed.

Lemma rangeFrom_shift k s :
  forall pos skip,
  rangeFrom (k + pos) skip s =
  map (fun pr => ((k + fst pr)%nat, snd pr)) (rangeFrom pos skip s).
Proof.
  induction s as [|a t IH]; intros pos skip; cbn [rangeFrom map].
  - reflexivity.
  - destruct skip as [|n].
    + destruct (utf8.DecodeRuneInString (a :: t)) as [r w]; cbn [map fst snd].
      rewrite <- IH, Nat.add_succ_r; reflexivity.
    + rewrite <- IH, Nat.add_succ_r; reflexivity.
Qed.

(** ** [strings.TrimSpace] *)

Section Trim.

Variable f : rune -> bool.

Lemma TrimLeftFunc_nil : strings.TrimLeftFunc [] f = [].
Proof. reflexivity. Qed.

(** A leading ASCII byte that satisfies [f] is dropped. *)
Lemma TrimLeftFunc_cons_drop c s :
  byteZ c < utf8.RuneSelf -> f (byteZ c) = true ->
  strings.TrimLeftFunc (c :: s) f = strings.TrimLeftFunc s f.
Proof.
  intros Hc Hf; unfold strings.TrimLeftFunc, strings.indexFunc, rangeString.
  cbn [rangeFrom]; rewrite (Decode_ascii _ _ Hc); cbn [Nat.sub find snd].
  rewrite Hf; cbn [Bool.eqb].
  rewrite (rangeFrom_shift 1 s 0 0 : rangeFrom 1 0 s = _).
  induction (rangeFrom 0 0 s) as [|[p r] l IH]; cbn [map find fst snd].
  - reflexivity.
  - destruct (Bool.eqb (f r) false); [reflexivity | exact IH].
Qed.

(** A leading ASCII byte that does not satisfy [f] ends the trimming. *)
Lemma TrimLeftFunc_cons_keep b s :
  byteZ b < utf8.RuneSelf -> f (byteZ b) = false ->
  strings.TrimLeftFunc (b :: s) f = b :: s.
Proof.
  intros Hb Hf; unfold strings.TrimLeftFunc, strings.indexFunc, rangeString.
  cbn [rangeFrom]; rewrite (Decode_ascii _ _ Hb); cbn [find snd].
  rewrite Hf; reflexivity.
Qed.

(** A string all of whose runes satisfy [f] is trimmed to nothing. *)
Lemma TrimLeftFunc_all s :
  Forall (fun pr => f (snd pr) = true) (rangeString s) ->
  strings.TrimLeftFunc s f = [].
Proof.
  unfold strings.TrimLeftFunc, strings.indexFunc.
  induction 1 as [|[p r] l Hr _ IH]; cbn [find snd option_map] in *.
  - reflexivity.
  - rewrite Hr; exact IH.
Qed.

Lemma lastStart_le n s lim : forall start, utf8.lastStart n s start lim <= start.
Proof.
  induction n as [|n IH]; intros start; cbn [utf8.lastStart]; [lia|].
  destruct (start <? lim); [lia|].
  destruct (nth_error s (Z.to_nat start)) as [b|]; [|lia].
  destruct (utf8.RuneStart b); [lia|].
  specialize (IH (start - 1)); lia.
Qed.

Lemma DecodeLast_snoc_ascii s c :
  byteZ c < utf8.RuneSelf ->
  utf8.DecodeLastRuneInString (s ++ [c]) = (byteZ c, 1%nat).
Proof.
  intros Hc; unfold utf8.DecodeLastRuneInString.
  rewrite length_app; cbn [length].
  replace (Z.of_nat (length s + 1) =? 0) with false by (symmetry; apply Z.eqb_neq; lia).
  replace (Z.to_nat (Z.of_nat (length s + 1) - 1)) with (length s) by lia.
  rewrite nth_error_app2, Nat.sub_diag by lia; cbn [nth_error].
  apply Z.ltb_lt in Hc; rewrite Hc; reflexivity.
Qed.

Lemma DecodeLast_width s r size :
  s <> [] -> utf8.DecodeLastRuneInString s = (r, size) ->
  (1 <= size <= length s)%nat.
Proof.
  intros Hs; unfold utf8.DecodeLastRuneInString.
  assert (0 < length s)%nat by (destruct s; [congruence | cbn; lia]).
  replace (Z.of_nat (length s) =? 0) with false by (symmetry; apply Z.eqb_neq; lia).
  destruct (nth_error s _) as [b|] eqn:Eb.
  2:{ apply nth_error_None in Eb; lia. }
  destruct (byteZ b <? utf8.RuneSelf); [intros [= <- <-]; lia|].
  set (lim := Z.max _ 0).
  pose proof (lastStart_le 4 s lim (Z.of_nat (length s) - 2)) as Hle.
  set (start0 := utf8.lastStart 4 s _ lim) in *.
  set (start := if start0 <? 0 then 0 else start0).
  assert (0 <= start <= Z.of_nat (length s) - 1) as Hstart.
  { subst start; destruct (start0 <? 0) eqn:E; [lia|]; apply Z.ltb_ge in E; lia. }
  destruct (utf8.DecodeRuneInString _) as [r' size'].
  destruct (start + Z.of_nat size' =? Z.of_nat (length s)) eqn:E.
  - apply Z.eqb_eq in E; intros [= <- <-]; lia.
  - intros [= <- <-]; lia.
Qed.

Lemma lastIndexLoop_app s t truth :
  forall fuel i, (i <= length s)%nat ->
  strings.lastIndexLoop fuel i (s ++ t) f truth =
  strings.lastIndexLoop fuel i s f truth.
Proof.
  induction fuel as [|fuel IH]; intros i Hi; cbn [strings.lastIndexLoop].
  - reflexivity.
  - destruct (i =? 0)%nat; [reflexivity|].
    rewrite firstn_app; replace (i - length s)%nat with 0%nat by lia.
    cbn [firstn]; rewrite app_nil_r.
    destruct (utf8.DecodeLastRuneInString (firstn i s)) as [r size].
    destruct (Bool.eqb (f r) truth); [reflexivity|].
    apply IH; lia.
Qed.

Lemma lastIndexLoop_lt s truth :
  forall fuel i j, (i <= length s)%nat ->
  strings.lastIndexLoop fuel i s f truth = Some j -> (j < i)%nat.
Proof.
  induction fuel as [|fuel IH]; intros i j Hi; cbn [strings.lastIndexLoop].
  - discriminate.
  - destruct (i =? 0)%nat eqn:E0; [discriminate|].
    apply Nat.eqb_neq in E0.
    destruct (utf8.DecodeLastRuneInString (firstn i s)) as [r size] eqn:E.
    apply DecodeLast_width in E.
    2:{ intros Hnil; apply (f_equal (@length _)) in Hnil.
        rewrite length_firstn in Hnil; cbn in Hnil; lia. }
    rewrite length_firstn in E.
    destruct (Bool.eqb (f r) truth).
    + intros [= <-]; lia.
    + intros Hj; apply IH in Hj; lia.
Qed.

Lemma TrimRightFunc_nil : strings.TrimRightFunc [] f = [].
Proof. reflexivity. Qed.

(** A trailing ASCII byte that satisfies [f] is dropped. *)
Lemma TrimRightFunc_snoc_drop s c :
  byteZ c < utf8.RuneSelf -> f (byteZ c) = true ->
  strings.TrimRightFunc (s ++ [c]) f = strings.TrimRightFunc s f.
Proof.
  intros Hc Hf; unfold strings.TrimRightFunc, strings.lastIndexFunc.
  rewrite length_app; cbn [length]; rewrite Nat.add_1_r.
  cbn [strings.lastIndexLoop Nat.eqb].
  rewrite (@firstn_all2 _ (S (length s)) (s ++ [c]))
    by (rewrite length_app; cbn [length]; lia).
  rewrite (DecodeLast_snoc_ascii s c Hc), Hf; cbn [Bool.eqb].
  replace (S (length s) - 1)%nat with (length s) by lia.
  rewrite lastIndexLoop_app by lia.
  destruct (strings.lastIndexLoop _ _ s f false) as [i|] eqn:Ei; [|reflexivity].
  apply lastIndexLoop_lt in Ei; [|lia].
  rewrite nth_error_app1 by lia.
  destruct (nth_error s i) as [b|] eqn:Eb.
  2:{ apply nth_error_None in Eb; lia. }
  destruct (utf8.RuneSelf <=? byteZ b).
  - rewrite skipn_app; replace (i - length s)%nat with 0%nat by lia.
    cbn [skipn]; rewrite Decode_snoc_ascii; [|
      intros Hnil; apply (f_equal (@length _)) in Hnil;
      rewrite length_skipn in Hnil; cbn in Hnil; lia | exact Hc].
    destruct (utf8.DecodeRuneInString (skipn i s)) as [r w] eqn:E.
    apply Decode_width in E; destruct E as [E _]; rewrite length_skipn in E.
    cbn [snd]; rewrite firstn_app.
    replace (i + w - length s)%nat with 0%nat by lia.
    cbn [firstn]; apply app_nil_r.
  - rewrite firstn_app; replace (i + 1 - length s)%nat with 0%nat by lia.
    cbn [firstn]; apply app_nil_r.
Qed.

(** A trailing ASCII byte that does not satisfy [f] ends the trimming. *)
Lemma TrimRightFunc_snoc_keep s b :
  byteZ b < utf8.RuneSelf -> f (byteZ b) = false ->
  strings.TrimRightFunc (s ++ [b]) f = s ++ [b].
Proof.
  intros Hb Hf; unfold strings.TrimRightFunc, strings.lastIndexFunc.
  rewrite length_app; cbn [length]; rewrite Nat.add_1_r.
  cbn [strings.lastIndexLoop Nat.eqb].
  rewrite (@firstn_all2 _ (S (length s)) (s ++ [b]))
    by (rewrite length_app; cbn [length]; lia).
  rewrite (DecodeLast_snoc_ascii s b Hb), Hf; cbn [Bool.eqb].
  replace (S (length s) - 1)%nat with (length s) by lia.
  rewrite nth_error_app2, Nat.sub_diag by lia; cbn [nth_error].
  replace (utf8.RuneSelf <=? byteZ b) with false by (symmetry; apply Z.leb_gt; lia).
  apply firstn_all2; rewrite length_app; cbn [length]; lia.
Qed.

End Trim.

Lemma TrimSpace_all_space s :
  Forall (fun pr => unicode.IsSpace (snd pr) = true) (rangeString s) ->
  strings.TrimSpace s = [].
Proof.
  intros H; unfold strings.TrimSpace, strings.TrimFunc.
  rewrite (TrimLeftFunc_all _ _ H); reflexivity.
Qed.

Lemma TrimLeftFunc_spaces pre s :
  Forall asciiSpace pre ->
  strings.TrimLeftFunc (pre ++ s) unicode.IsSpace =
  strings.TrimLeftFunc s unicode.IsSpace.
Proof.
  induction 1 as [|c pre [Hsp Hc] _ IH]; cbn [app]; [reflexivity|].
  rewrite TrimLeftFunc_cons_drop by assumption; exact IH.
Qed.

Lemma TrimRightFunc_spaces s post :
  Forall asciiSpace post ->
  strings.TrimRightFunc (s ++ post) unicode.IsSpace =
  strings.TrimRightFunc s unicode.IsSpace.
Proof.
  induction post as [|c post IH] using rev_ind; intros H.
  - rewrite app_nil_r; reflexivity.
  - apply Forall_app in H; destruct H as [Hpost Hc].
    inversion Hc as [|? ? [Hsp Hlt] _]; subst.
    rewrite app_assoc, TrimRightFunc_snoc_drop by assumption; auto.
Qed.

(** White space around a string with plain ends is what [TrimSpace] removes,
    and all it removes. *)
Lemma TrimSpace_around pre s post :
  Forall asciiSpace pre -> Forall asciiSpace post -> plainEnds s ->
  strings.TrimSpace (pre ++ s ++ post) = s.
Proof.
  intros Hpre Hpost Hs; unfold strings.TrimSpace, strings.TrimFunc.
  rewrite (TrimLeftFunc_spaces pre _ Hpre).
  destruct s as [|b t].
  - cbn [app]; rewrite <- (app_nil_r post), (TrimLeftFunc_spaces post [] Hpost).
    reflexivity.
  - destruct Hs as [[Hb Hblt] [He Helt]]; cbn [app].
    rewrite TrimLeftFunc_cons_keep by assumption.
    change (b :: t ++ post) with ((b :: t) ++ post).
    rewrite (TrimRightFunc_spaces _ post Hpost).
    rewrite (app_removelast_last b (l := b :: t)) by discriminate.
    apply TrimRightFunc_snoc_keep; assumption.
Qed.

(** Without white space around it, a string with plain ends is left as it
    is. *)
Lemma TrimSpace_plainEnds s : plainEnds s -> strings.TrimSpace s = s.
Proof.
  intros Hs; pose proof (TrimSpace_around [] s [] (Forall_nil _) (Forall_nil _) Hs) as H.
  cbn [app] in H; rewrite app_nil_r in H; exact H.
Qed.

(** ** The env/argv splitter *)

Lemma HasPrefix_nil s : strings.HasPrefix s [] = true.
Proof. destruct s; reflexivity. Qed.

Lemma Contains_eq_sign s :
  strings.Contains s (lit "=") = true <-> In "="%char s.
Proof.
  induction s as [|c s IH]; cbn [strings.Contains strings.HasPrefix lit
    list_ascii_of_string In].
  - split; [discriminate | tauto].
  - rewrite HasPrefix_nil, andb_true_r, orb_true_iff, IH, Ascii.eqb_eq.
    reflexivity.
Qed.

Lemma extractLoop_all_assignments whole rest :
  Forall (fun s => In "="%char s) rest ->
  forall i, extractLoop whole i rest = ([], []).
Proof.
  induction 1 as [|s rest Hs _ IH]; intros i; cbn [extractLoop].
  - reflexivity.
  - apply Contains_eq_sign in Hs; rewrite Hs; apply IH.
Qed.

(** C3: for every non-empty token sequence in which every token contains
    the character [=], [extractEnvFromArgv] returns two empty sequences:
    env is empty and argv is empty, the tokens themselves are dropped. *)
Theorem extractEnvFromArgv_all_assignments (toks : list gostring) :
  toks <> [] ->
  Forall (fun s => In "="%char s) toks ->
  extractEnvFromArgv toks = ([], []).
Proof.
  intros _ H; apply extractLoop_all_assignments; exact H.
Qed.

Lemma extractEnvFromArgv_all_assignments_witness :
  extractEnvFromArgv [lit "A=1"; lit "B=2"] = ([], []).
Proof.
  apply extractEnvFromArgv_all_assignments.
  - discriminate.
  - apply Forall_cons; [simpl; auto|].
    apply Forall_cons; [simpl; auto | apply Forall_nil].
Defined.

(** C1: the argv that a successful [Parse] returns should never be empty,
    as the comment on [Parse] promises; on a command line made of
    assignments only the code returns an empty argv. *)
Theorem Parse_assignments_only_argv_empty :
  Parse (lit "A=1 B=2") = Ok ([], [], None).
Proof. vm_compute; reflexivity. Qed.

(** The same on every command line whose tokens all contain [=]. *)
Lemma Parse_all_assignments str st :
  scan (strings.TrimSpace str) = Ok st ->
  inQuotes st = false -> inDbl st = false ->
  Forall (fun s => In "="%char s) (lastToken st) ->
  Parse str = Ok ([], [], None).
Proof.
  intros Hs Hq Hd Hall; unfold Parse, finish; rewrite Hs; cbn [bind].
  rewrite Hq, Hd; unfold extractEnvFromArgv.
  rewrite (extractLoop_all_assignments _ _ Hall); reflexivity.
Qed.

(** ** A backslash at the end of the input *)

Lemma scan_snoc_backslash pre :
  scan (pre ++ [bBackslash]) =
  (st <- forRange (body (pre ++ [bBackslash])) (rangeString pre) init ;;
   body (pre ++ [bBackslash]) (length pre) backslash st).
Proof.
  unfold scan; rewrite (rangeString_snoc_ascii pre bBackslash) by (vm_compute; reflexivity).
  rewrite forRange_app.
  destruct (forRange _ (rangeString pre) init) as [st|]; cbn [bind forRange]; [|reflexivity].
  change (byteZ bBackslash) with backslash.
  destruct (body _ _ backslash st); reflexivity.
Qed.

(** Inside double quotes the lookahead of a final unescaped backslash reads
    [str[len(str)]]: the guard [len(str) > pos] holds for every [pos] the
    loop hands out, so it does not protect the index [pos+1]. *)
Lemma scan_backslash_last_in_dquotes pre st :
  forRange (body (pre ++ [bBackslash])) (rangeString pre) init = Ok st ->
  escaped st = false -> inQuotes st = false -> inDbl st = true ->
  scan (pre ++ [bBackslash]) = Panic.
Proof.
  intros Hscan He Hq Hd; rewrite scan_snoc_backslash, Hscan; cbn [bind].
  unfold body; rewrite He, Hq, Hd; cbn [negb andb].
  change (backslash =? backslash) with true; cbn [set_escaped inQuotes inDbl].
  rewrite Hq, Hd, length_app; cbn [length].
  replace (length pre <? length pre + 1)%nat with true
    by (symmetry; apply Nat.ltb_lt; lia).
  replace (nth_error (pre ++ [bBackslash]) (length pre + 1)) with (@None ascii);
    [reflexivity|].
  symmetry; apply nth_error_None; rewrite length_app; cbn [length]; lia.
Qed.

(** C2: an unescaped backslash inside double quotes as the last character
    of the trimmed input should be appended and [Parse] should return the
    unbalanced-quotes error; the code indexes the string one past its end
    and panics. *)
Theorem Parse_dquote_trailing_backslash_panics :
  Parse [bDquote; "a"%char; bBackslash] = Panic.
Proof. vm_compute; reflexivity. Qed.

(** C10: when the trimmed input ends with an unescaped backslash outside
    any quotes, [Parse] succeeds and the tokens are those the loop had
    before that backslash, which adds nothing to them; the two-character
    input of an [a] and a backslash gives env [[]] and argv [[a]]. *)
Theorem Parse_trailing_backslash_unquoted :
  (forall input pre st,
     strings.TrimSpace input = pre ++ [bBackslash] ->
     forRange (body (pre ++ [bBackslash])) (rangeString pre) init = Ok st ->
     escaped st = false -> inQuotes st = false -> inDbl st = false ->
     tokens input = Ok (lastToken st)
     /\ Parse input =
        Ok (fst (extractEnvFromArgv (lastToken st)),
            snd (extractEnvFromArgv (lastToken st)), None))
  /\ Parse ["a"%char; bBackslash] = Ok ([], [lit "a"], None).
Proof.
  split; [|vm_compute; reflexivity].
  intros input pre st Htrim Hscan He Hq Hd.
  assert (scan (pre ++ [bBackslash]) = Ok (set_escaped true st)) as Hs.
  { rewrite scan_snoc_backslash, Hscan; cbn [bind].
    unfold body; rewrite He, Hq, Hd; cbn [negb andb].
    change (backslash =? backslash) with true; cbn [set_escaped inQuotes inDbl].
    rewrite Hq, Hd; reflexivity. }
  unfold tokens, Parse; rewrite Htrim, Hs; cbn [bind]; split.
  - reflexivity.
  - unfold finish; cbn [set_escaped inQuotes inDbl]; rewrite Hq, Hd.
    change (lastToken (set_escaped true st)) with (lastToken st).
    destruct (extractEnvFromArgv (lastToken st)); reflexivity.
Qed.

Lemma Parse_trailing_backslash_unquoted_witness :
  Parse (lit "X=1 ls -l\ ") = Ok ([lit "X=1"], [lit "ls"; lit "-l"], None).
Proof.
  refine (proj2 (proj1 Parse_trailing_backslash_unquoted
                   (lit "X=1 ls -l\ ") (lit "X=1 ls -l")
                   {| token := Some [45; 108]; inQuotes := false;
                      inDbl := false; escaped := false;
                      argv := [lit "X=1"; lit "ls"] |} _ _ _ _ _));
    vm_compute; reflexivity.
Defined.

(** ** The quote check *)

(** C6: [Parse] returns the unbalanced-quotes error exactly when the loop
    has run over the whole trimmed input and ends with the single-quote or
    the double-quote mode on; the state at the end alone decides, and the
    error comes with no env and no argv. *)
Theorem Parse_error_iff_open_quote (str : gostring) (env args : list gostring) :
  Parse str = Ok (env, args, Some ErrUnbalancedQuotes) <->
  env = [] /\ args = []
  /\ exists st, scan (strings.TrimSpace str) = Ok st
                /\ (inQuotes st = true \/ inDbl st = true).
Proof.
  unfold Parse; destruct (scan (strings.TrimSpace str)) as [st|]; cbn [bind].
  - unfold finish; split.
    + destruct (inQuotes st) eqn:Eq; [|destruct (inDbl st) eqn:Ed].
      * intros [= <- <-]; repeat split; exists st; auto.
      * intros [= <- <-]; repeat split; exists st; auto.
      * destruct (extractEnvFromArgv (lastToken st)); discriminate.
    + intros (-> & -> & st' & [= <-] & H).
      destruct (inQuotes st); [reflexivity|].
      destruct (inDbl st); [reflexivity|].
      destruct H; discriminate.
  - split; [discriminate|].
    intros (_ & _ & st & H & _); discriminate.
Qed.

(** ** The tokenizer stage *)

Lemma lastToken_length st : (1 <= length (lastToken st))%nat.
Proof.
  unfold lastToken; destruct (token st); rewrite length_app; cbn [length]; lia.
Qed.

(** The loop panics only on an unescaped backslash that is the last byte of
    the string and lies inside double quotes: a string on which the
    double-quote mode is still on at its end. *)
Lemma scan_panic_open_dquote str :
  scan str = Panic ->
  exists done pos st,
    rangeString str = done ++ [(pos, backslash)]
    /\ forRange (body str) done init = Ok st
    /\ escaped st = false /\ inQuotes st = false /\ inDbl st = true
    /\ length str = (pos + 1)%nat.
Proof.
  unfold scan; intros H.
  apply forRange_panic in H.
  destruct H as (done & pos & char & todo & st & Hr & Hd & Hp).
  apply body_panic in Hp; destruct Hp as (-> & He & Hq & Hdq & Hn).
  apply nth_error_None in Hn.
  assert (In (pos, backslash) (rangeString str)) as Hin
    by (rewrite Hr; apply in_elt).
  assert (forall s p k q r, In (q, r) (rangeFrom p k s) ->
            (p <= q < p + length s)%nat) as Hpos.
  { induction s as [|a t IH]; intros p k q r; cbn [rangeFrom length In]; [tauto|].
    destruct k as [|k].
    - destruct (utf8.DecodeRuneInString (a :: t)) as [r' w].
      intros [[= <- <-]|Hi]; [lia | apply IH in Hi; lia].
    - intros Hi; apply IH in Hi; lia. }
  pose proof (Hpos _ _ _ _ _ Hin) as Hlt.
  assert (forall s p k q r l1 l2, rangeFrom p k s = l1 ++ (q, r) :: l2 ->
            Forall (fun pr => (q < fst pr)%nat) l2) as Hsorted.
  { induction s as [|a t IH]; intros p k q r l1 l2; cbn [rangeFrom].
    - destruct l1; discriminate.
    - destruct k as [|k].
      + destruct (utf8.DecodeRuneInString (a :: t)) as [r' w].
        destruct l1 as [|x l1]; cbn [app].
        * intros [= <- <- <-]; apply Forall_forall; intros [q' r''] Hi.
          apply Hpos in Hi; cbn [fst]; lia.
        * intros [= _ E]; eapply IH; exact E.
      + apply IH. }
  pose proof (Hsorted _ _ _ _ _ _ _ Hr) as Hafter.
  destruct todo as [|[q r] todo].
  - exists done, pos, st; repeat split; auto; lia.
  - exfalso; inversion Hafter as [|? ? Hq' _]; subst; cbn [fst] in Hq'.
    assert (In (q, r) (rangeString str)) as Hin'
      by (rewrite Hr; apply in_or_app; right; right; left; reflexivity).
    apply Hpos in Hin'; lia.
Qed.

(** C7: on every input whose quotes are balanced, that is whose scan ends
    with both quote modes off, the tokenizer stage yields at least one
    token; the empty input and an input of white space only yield exactly
    one token, the empty string. *)
Theorem tokens_at_least_one :
  (forall str st,
     scan (strings.TrimSpace str) = Ok st ->
     inQuotes st = false -> inDbl st = false ->
     exists toks, tokens str = Ok toks /\ (1 <= length toks)%nat)
  /\ tokens (lit "") = Ok [lit ""]
  /\ (forall ws,
        Forall (fun pr => unicode.IsSpace (snd pr) = true) (rangeString ws) ->
        tokens ws = Ok [lit ""]).
Proof.
  split; [|split].
  - intros str st Hs _ _; exists (lastToken st); unfold tokens.
    rewrite Hs; split; [reflexivity | apply lastToken_length].
  - reflexivity.
  - intros ws H; unfold tokens; rewrite (TrimSpace_all_space ws H); reflexivity.
Qed.

Lemma tokens_at_least_one_witness :
  (exists toks, tokens (lit "a 'b c'") = Ok toks /\ (1 <= length toks)%nat)
  /\ tokens (lit "   ") = Ok [lit ""].
Proof.
  split.
  - eapply (proj1 tokens_at_least_one (lit "a 'b c'")); vm_compute; reflexivity.
  - apply (proj2 (proj2 tokens_at_least_one) (lit "   ")).
    repeat (apply Forall_cons; [vm_compute; reflexivity|]); apply Forall_nil.
Defined.

(** ** The two quote modes *)

(** C8: at every point of the scan of any input at most one of the two
    quote modes is on; an unescaped double quote met inside single quotes,
    and an unescaped single quote met inside double quotes, is appended to
    the token as it is and switches neither mode. *)
Theorem quote_modes_exclusive :
  (forall str st, visited str st -> inQuotes st && inDbl st = false)
  /\ (forall str pos st,
        escaped st = false -> inQuotes st = true ->
        exists st', body str pos dquote st = Ok st'
          /\ runes st' = runes st ++ [dquote]
          /\ inQuotes st' = inQuotes st /\ inDbl st' = inDbl st)
  /\ (forall str pos st,
        escaped st = false -> inQuotes st = false -> inDbl st = true ->
        exists st', body str pos squote st = Ok st'
          /\ runes st' = runes st ++ [squote]
          /\ inQuotes st' = inQuotes st /\ inDbl st' = inDbl st).
Proof.
  split; [exact visited_exclusive | split].
  - intros str pos [tok q d e a] He Hq; cbn [escaped inQuotes] in He, Hq.
    subst e q; destruct tok; (eexists; split; [lazy; reflexivity|]);
      repeat split.
  - intros str pos [tok q d e a] He Hq Hd; cbn [escaped inQuotes inDbl] in *.
    subst e q d; destruct tok; (eexists; split; [lazy; reflexivity|]);
      repeat split.
Qed.

Lemma quote_modes_exclusive_witness :
  inQuotes (addToken dquote (mkState (Some [97]) true false false []))
  && inDbl (addToken dquote (mkState (Some [97]) true false false [])) = false
  /\ (exists st',
        body [bSquote; "a"%char; bDquote; bSquote] 2 dquote
          (mkState (Some [97]) true false false []) = Ok st'
        /\ runes st' = [97; dquote])
  /\ (exists st',
        body [bDquote; "a"%char; bSquote; bDquote] 2 squote
          (mkState (Some [97]) false true false []) = Ok st'
        /\ runes st' = [97; squote]).
Proof.
  split; [|split].
  - apply (proj1 quote_modes_exclusive [bSquote; "a"%char; bDquote; bSquote]).
    exists [(0%nat, squote); (1%nat, 97); (2%nat, dquote)], [(3%nat, squote)].
    split; vm_compute; reflexivity.
  - destruct (proj1 (proj2 quote_modes_exclusive)
                [bSquote; "a"%char; bDquote; bSquote] 2%nat
                (mkState (Some [97]) true false false []) eq_refl eq_refl)
      as (st' & Hb & Hr & _).
    exists st'; split; [exact Hb | exact Hr].
  - destruct (proj2 (proj2 quote_modes_exclusive)
                [bDquote; "a"%char; bSquote; bDquote] 2%nat
                (mkState (Some [97]) false true false [])
                eq_refl eq_refl eq_refl)
      as (st' & Hb & Hr & _).
    exists st'; split; [exact Hb | exact Hr].
Defined.

(** ** Backslashes inside quotes *)

Lemma runes_addToken char st : runes (addToken char st) = runes st ++ [char].
Proof. destruct st as [[t|] q d e a]; reflexivity. Qed.

(** C9: inside double quotes an unescaped backslash is left out of the
    token exactly when the character after it in the string is a double
    quote or a backslash, and is appended otherwise; the six-character
    input double quote, [a], backslash, double quote, [b], double quote
    gives the single token [a], double quote, [b]. *)
Theorem dquote_backslash_lookahead :
  (forall str pos st next,
     inDbl st = true -> inQuotes st = false -> escaped st = false ->
     nth_error str (pos + 1) = Some next ->
     exists st', body str pos backslash st = Ok st'
       /\ (runes st' = runes st <->
           byteZ next = dquote \/ byteZ next = backslash)
       /\ (~ (byteZ next = dquote \/ byteZ next = backslash) ->
           runes st' = runes st ++ [backslash])
       /\ argv st' = argv st
       /\ inDbl st' = true /\ inQuotes st' = false)
  /\ tokens [bDquote; "a"%char; bBackslash; bDquote; "b"%char; bDquote]
     = Ok [["a"%char; bDquote; "b"%char]].
Proof.
  split; [|vm_compute; reflexivity].
  intros str pos [tok q d e a] next Hd Hq He Hn.
  cbn [escaped inQuotes inDbl] in *; subst e q d.
  assert (pos < length str)%nat as Hlt.
  { assert (pos + 1 < length str)%nat by (apply nth_error_Some; congruence). lia. }
  apply Nat.ltb_lt in Hlt.
  unfold body; cbn [escaped negb andb set_escaped inQuotes inDbl].
  change (backslash =? backslash) with true; cbn iota.
  rewrite Hlt, Hn.
  assert (forall l : list rune, l = l ++ [backslash] -> False) as Hne.
  { intros l H; apply (f_equal (@length _)) in H.
    rewrite length_app in H; cbn [length] in H; lia. }
  destruct (byteZ next =? dquote) eqn:E1;
    [|destruct (byteZ next =? backslash) eqn:E2];
    rewrite ?Z.eqb_eq, ?Z.eqb_neq in *;
    (eexists; split; [reflexivity|]).
  - split; [split; auto|]; split; [intros Hc; exfalso; auto | repeat split].
  - split; [split; auto|]; split; [intros Hc; exfalso; auto | repeat split].
  - rewrite runes_addToken.
    change (runes (set_escaped true ?s)) with (runes s).
    split; [split|]; [intros H; symmetry in H; destruct (Hne _ H) | tauto |].
    destruct tok; repeat split.
Qed.

Lemma dquote_backslash_lookahead_witness :
  (exists st',
     body [bDquote; "a"%char; bBackslash; bDquote; "b"%char; bDquote] 2
       backslash (mkState (Some [97]) false true false []) = Ok st'
     /\ runes st' = [97])
  /\ (exists st',
        body [bDquote; "a"%char; bBackslash; "n"%char; bDquote] 2
          backslash (mkState (Some [97]) false true false []) = Ok st'
        /\ runes st' = [97; backslash]).
Proof.
  split.
  - destruct (proj1 dquote_backslash_lookahead
                [bDquote; "a"%char; bBackslash; bDquote; "b"%char; bDquote]
                2%nat (mkState (Some [97]) false true false []) bDquote
                eq_refl eq_refl eq_refl eq_refl)
      as (st' & Hb & Hiff & _).
    exists st'; split; [exact Hb|].
    apply Hiff; left; reflexivity.
  - destruct (proj1 dquote_backslash_lookahead
                [bDquote; "a"%char; bBackslash; "n"%char; bDquote]
                2%nat (mkState (Some [97]) false true false []) "n"%char
                eq_refl eq_refl eq_refl eq_refl)
      as (st' & Hb & _ & Happ & _).
    exists st'; split; [exact Hb|].
    apply Happ; vm_compute; intros [H|H]; discriminate H.
Defined.

(** C4, as the code has it: inside single quotes an unescaped backslash is
    appended to the token, and appending clears [escaped] again, so that a
    single quote right after it closes the quotes; the four-character input
    single quote, [a], backslash, single quote parses to the one argument
    [a], backslash. *)
Theorem squote_backslash_kept_and_quote_closes :
  (forall str pos st,
     inQuotes st = true -> inDbl st = false -> escaped st = false ->
     exists st', body str pos backslash st = Ok st'
       /\ runes st' = runes st ++ [backslash]
       /\ escaped st' = false
       /\ inQuotes st' = true
       /\ forall pos', exists st'',
            body str pos' squote st' = Ok st''
            /\ inQuotes st'' = false /\ runes st'' = runes st')
  /\ Parse [bSquote; "a"%char; bBackslash; bSquote]
     = Ok ([], [["a"%char; bBackslash]], None).
Proof.
  split; [|vm_compute; reflexivity].
  intros str pos [tok q d e a] Hq Hd He.
  cbn [escaped inQuotes inDbl] in *; subst e q d.
  destruct tok; (eexists; split; [lazy; reflexivity|]);
    repeat split; intros pos'; eexists; (split; [lazy; reflexivity|]);
    repeat split.
Qed.

Lemma squote_backslash_kept_and_quote_closes_witness :
  exists st',
    body [bSquote; "a"%char; bBackslash; bSquote] 2 backslash
      (mkState (Some [97]) true false false []) = Ok st'
    /\ escaped st' = false.
Proof.
  destruct (proj1 squote_backslash_kept_and_quote_closes
              [bSquote; "a"%char; bBackslash; bSquote] 2%nat
              (mkState (Some [97]) true false false [])
              eq_refl eq_refl eq_refl)
    as (st' & Hb & _ & He & _).
  exists st'; split; [exact Hb | exact He].
Defined.

(** C4 as stated fails: after the backslash inside single quotes [escaped]
    is off, the single quote that follows closes the quotes, and the parse
    of single quote, [a], backslash, single quote succeeds. *)
Lemma squote_backslash_counterexample :
  (exists st,
     forRange (body [bSquote; "a"%char; bBackslash; bSquote])
       [(0%nat, squote); (1%nat, 97); (2%nat, backslash)] init = Ok st
     /\ escaped st = false)
  /\ Parse [bSquote; "a"%char; bBackslash; bSquote]
     <> Ok ([], [], Some ErrUnbalancedQuotes).
Proof.
  split.
  - eexists; split; [lazy; reflexivity | reflexivity].
  - vm_compute; discriminate.
Qed.

(** ** What [Parse] trims *)

Lemma asciiSpace_iff b :
  asciiSpace b <->
  byteZ b = 9 \/ byteZ b = 10 \/ byteZ b = 11 \/ byteZ b = 12
  \/ byteZ b = 13 \/ byteZ b = 32.
Proof.
  unfold asciiSpace, unicode.IsSpace, utf8.between, utf8.RuneSelf.
  pose proof (byteZ_range b) as Hr; set (x := byteZ b) in *.
  rewrite !orb_true_iff, !andb_true_iff, !Z.eqb_eq, !Z.leb_le; lia.
Qed.

(** C5 as stated fails: a leading vertical tab and a trailing form feed are
    trimmed, where trimming the separator set alone would keep them, and
    neither reaches a token. *)
Lemma trim_vertical_tab_counterexample :
  strings.TrimSpace [bVTab; "a"%char; bFormFeed]
  <> trimSeparatorSet [bVTab; "a"%char; bFormFeed]
  /\ Parse [bVTab; "a"%char; bFormFeed] = Ok ([], [lit "a"], None).
Proof.
  split; [vm_compute; discriminate | vm_compute; reflexivity].
Qed.

(** * Further properties of the code *)

(** ** The splitter on a command line with a command *)

Lemma extractLoop_split pre rest :
  Forall (fun s => In "="%char s) pre ->
  Exists (fun s => ~ In "="%char s) rest ->
  exists env a tl,
    extractLoop (pre ++ rest) (length pre) rest = (env, a :: tl)
    /\ pre ++ rest = env ++ a :: tl
    /\ Forall (fun s => In "="%char s) env
    /\ ~ In "="%char a.
Proof.
  revert pre; induction rest as [|s rest IH]; intros pre Hpre Hex.
  - inversion Hex.
  - cbn [extractLoop].
    destruct (strings.Contains s (lit "=")) eqn:E; cbn [negb].
    + apply Contains_eq_sign in E.
      assert (Exists (fun s => ~ In "="%char s) rest) as Hex'
        by (inversion Hex; [contradiction | assumption]).
      destruct (IH (pre ++ [s])) as (env & a & tl & Hl & Hsplit & Henv & Ha).
      * apply Forall_app; split; [exact Hpre | repeat constructor; exact E].
      * exact Hex'.
      * rewrite <- app_assoc, length_app in Hl; cbn [app length] in Hl.
        rewrite Nat.add_1_r in Hl; rewrite <- app_assoc in Hsplit.
        exists env, a, tl; auto.
    + exists pre, s, rest.
      rewrite firstn_app, skipn_app, Nat.sub_diag, firstn_all, skipn_all.
      cbn [firstn skipn app]; rewrite app_nil_r.
      repeat split; auto.
      intros Hin; apply Contains_eq_sign in Hin; congruence.
Qed.

(** X1: when some token has no [=], [extractEnvFromArgv] cuts the token
    list in two without losing or reordering anything: env is the run of
    leading tokens that contain [=], and argv starts with the first token
    that does not. *)
Theorem extractEnvFromArgv_partition (toks : list gostring) :
  Exists (fun s => ~ In "="%char s) toks ->
  exists env a tl,
    extractEnvFromArgv toks = (env, a :: tl)
    /\ toks = env ++ a :: tl
    /\ Forall (fun s => In "="%char s) env
    /\ ~ In "="%char a.
Proof.
  intros Hex; exact (extractLoop_split [] toks (Forall_nil _) Hex).
Qed.

Lemma extractEnvFromArgv_partition_witness :
  exists env a tl,
    extractEnvFromArgv [lit "A=1"; lit "B=2"; lit "ls"; lit "x=y"]
    = (env, a :: tl)
    /\ [lit "A=1"; lit "B=2"; lit "ls"; lit "x=y"] = env ++ a :: tl
    /\ Forall (fun s => In "="%char s) env
    /\ ~ In "="%char a.
Proof.
  apply extractEnvFromArgv_partition.
  do 2 apply Exists_cons_tl; apply Exists_cons_hd.
  simpl; intros [H|[H|H]]; [discriminate H | discriminate H | exact H].
Defined.

(** The splitter returns either both lists empty or the two parts of its
    argument. *)
Lemma extractEnvFromArgv_cases toks :
  (extractEnvFromArgv toks = ([], []) /\ Forall (fun s => In "="%char s) toks)
  \/ Exists (fun s => ~ In "="%char s) toks.
Proof.
  destruct (Forall_Exists_dec (fun s : gostring => In "="%char s)
              (fun s => in_dec ascii_dec "="%char s) toks) as [H|H].
  - left; split; [apply extractLoop_all_assignments|]; exact H.
  - right; exact H.
Qed.

(** X2: when [Parse] succeeds with a non-empty argv, env followed by argv
    is exactly the token list of the tokenizer stage, every element of env
    contains [=], and [argv[0]] does not. *)
Theorem Parse_success_partition
  (str : gostring) (env : list gostring) (a : gostring) (tl : list gostring) :
  Parse str = Ok (env, a :: tl, None) ->
  tokens str = Ok (env ++ a :: tl)
  /\ Forall (fun s => In "="%char s) env
  /\ ~ In "="%char a.
Proof.
  unfold Parse, tokens.
  destruct (scan (strings.TrimSpace str)) as [st|]; cbn [bind]; [|discriminate].
  unfold finish.
  destruct (inQuotes st); [discriminate|].
  destruct (inDbl st); [discriminate|].
  destruct (extractEnvFromArgv_cases (lastToken st)) as [[H _]|H].
  - rewrite H; discriminate.
  - apply (extractLoop_split [] _ (Forall_nil _)) in H.
    cbn [app length] in H; unfold extractEnvFromArgv.
    destruct H as (env' & a' & tl' & -> & Hsplit & Henv & Ha).
    intros [= <- <- <-]; rewrite Hsplit; auto.
Qed.

Lemma Parse_success_partition_witness :
  tokens (lit "PATH=/bin ls -l") = Ok ([lit "PATH=/bin"] ++ [lit "ls"; lit "-l"])
  /\ Forall (fun s => In "="%char s) [lit "PATH=/bin"]
  /\ ~ In "="%char (lit "ls").
Proof.
  apply (Parse_success_partition (lit "PATH=/bin ls -l")).
  vm_compute; reflexivity.
Defined.

(** ** When [Parse] panics *)

Lemma byte_of_byteZ b : byte_of (byteZ b) = b.
Proof.
  unfold byte_of, byteZ; rewrite N2Z.id; apply ascii_N_embedding.
Qed.

Lemma byteZ_inj a b : byteZ a = byteZ b -> a = b.
Proof.
  intros H; rewrite <- (byte_of_byteZ a), <- (byte_of_byteZ b), H; reflexivity.
Qed.

Lemma rangeFrom_In_decode s :
  forall p k q r, In (q, r) (rangeFrom p k s) ->
  (p <= q)%nat /\ r = fst (utf8.DecodeRuneInString (skipn (q - p) s)).
Proof.
  induction s as [|a t IH]; intros p k q r; cbn [rangeFrom In]; [tauto|].
  assert (forall k', In (q, r) (rangeFrom (S p) k' t) ->
            (p <= q)%nat
            /\ r = fst (utf8.DecodeRuneInString (skipn (q - p) (a :: t)))) as Htl.
  { intros k' Hin; apply IH in Hin; destruct Hin as [Hle ->]; split; [lia|].
    replace (q - p)%nat with (S (q - S p)) by lia; reflexivity. }
  destruct k as [|k]; [|apply Htl].
  destruct (utf8.DecodeRuneInString (a :: t)) as [r' w] eqn:E.
  intros [[= <- <-]|Hin]; [|eapply Htl; exact Hin].
  rewrite Nat.sub_diag; cbn [skipn]; rewrite E; auto.
Qed.

Lemma Decode_single b :
  utf8.DecodeRuneInString [b] =
  (if byteZ b <? utf8.RuneSelf then byteZ b else utf8.RuneError, 1%nat).
Proof.
  unfold utf8.DecodeRuneInString.
  repeat match goal with |- context [if ?c then _ else _] => destruct c end;
    reflexivity.
Qed.

(** X3: [Parse] panics exactly when the trimmed command line ends with a
    backslash that the loop reaches unescaped, outside single quotes and
    inside double quotes; on every other input it returns. *)
Theorem Parse_panics_iff (input : gostring) :
  Parse input = Panic <->
  exists pre st,
    strings.TrimSpace input = pre ++ [bBackslash]
    /\ forRange (body (pre ++ [bBackslash])) (rangeString pre) init = Ok st
    /\ escaped st = false /\ inQuotes st = false /\ inDbl st = true.
Proof.
  unfold Parse; set (str := strings.TrimSpace input); split.
  - destruct (scan str) as [st|] eqn:Hs; cbn [bind]; [discriminate|]; intros _.
    apply scan_panic_open_dquote in Hs.
    destruct Hs as (done & pos & st & Hr & Hd & He & Hq & Hdq & Hlen).
    destruct (exists_last (l := str)) as (pre & b & Hstr).
    { intros Hnil; rewrite Hnil in Hlen; cbn in Hlen; lia. }
    assert (length pre = pos) as Hpre.
    { rewrite Hstr, length_app in Hlen; cbn [length] in Hlen; lia. }
    assert (In (pos, backslash) (rangeFrom 0 0 str)) as Hin.
    { change (rangeFrom 0 0 str) with (rangeString str); rewrite Hr.
      apply in_or_app; right; left; reflexivity. }
    apply rangeFrom_In_decode in Hin; destruct Hin as [_ Hdec].
    rewrite Nat.sub_0_r, Hstr, skipn_app, <- Hpre, skipn_all, Nat.sub_diag in Hdec.
    cbn [skipn app] in Hdec; rewrite Decode_single in Hdec; cbn [fst] in Hdec.
    assert (b = bBackslash) as ->.
    { apply byteZ_inj; destruct (byteZ b <? utf8.RuneSelf).
      - symmetry; exact Hdec.
      - discriminate Hdec. }
    rewrite Hstr, rangeString_snoc_ascii in Hr by (vm_compute; reflexivity).
    apply app_inj_tail in Hr; destruct Hr as [<- _].
    exists pre, st; rewrite <- Hstr; auto.
  - intros (pre & st & Htrim & Hscan & He & Hq & Hd).
    rewrite Htrim, (scan_backslash_last_in_dquotes pre st Hscan He Hq Hd).
    reflexivity.
Qed.

Lemma TrimSpace_In b s : In b (strings.TrimSpace s) -> In b s.
Proof.
  unfold strings.TrimSpace, strings.TrimFunc.
  assert (forall n (l : gostring), In b (firstn n l) -> In b l) as Hf.
  { intros n l H; rewrite <- (firstn_skipn n l); apply in_or_app; auto. }
  assert (forall n (l : gostring), In b (skipn n l) -> In b l) as Hk.
  { intros n l H; rewrite <- (firstn_skipn n l); apply in_or_app; auto. }
  intros H.
  assert (In b (strings.TrimLeftFunc s unicode.IsSpace)) as Hl.
  { revert H; generalize (strings.TrimLeftFunc s unicode.IsSpace); intros l.
    unfold strings.TrimRightFunc.
    destruct (strings.lastIndexFunc l unicode.IsSpace false) as [i|];
      [|intros []].
    destruct (nth_error l i) as [c|]; [destruct (utf8.RuneSelf <=? byteZ c)|];
      apply Hf. }
  revert Hl; unfold strings.TrimLeftFunc.
  destruct (strings.indexFunc s unicode.IsSpace false); [apply Hk | intros []].
Qed.

(** X4: on a command line without any backslash [Parse] never panics: it
    returns its three results. *)
Theorem Parse_returns_without_backslash (input : gostring) :
  ~ In bBackslash input -> exists r, Parse input = Ok r.
Proof.
  intros Hno; destruct (Parse input) as [r|] eqn:E; [exists r; reflexivity|].
  exfalso; apply Hno.
  unfold Parse in E.
  destruct (scan (strings.TrimSpace input)) as [st|] eqn:Hs; [discriminate|].
  apply scan_panic_open_dquote in Hs.
  destruct Hs as (done & pos & st & Hr & _ & _ & _ & _ & Hlen).
  set (str := strings.TrimSpace input) in *.
  assert (In (pos, backslash) (rangeFrom 0 0 str)) as Hin.
  { change (rangeFrom 0 0 str) with (rangeString str); rewrite Hr.
    apply in_or_app; right; left; reflexivity. }
  apply rangeFrom_In_decode in Hin; destruct Hin as [_ Hdec].
  rewrite Nat.sub_0_r in Hdec.
  apply TrimSpace_In; fold str.
  destruct (skipn pos str) as [|b [|b' t]] eqn:Hk.
  - apply (f_equal (@length _)) in Hk; rewrite length_skipn in Hk.
    cbn [length] in Hk; lia.
  - rewrite Decode_single in Hdec; cbn [fst] in Hdec.
    assert (b = bBackslash) as Hb.
    { apply byteZ_inj; destruct (byteZ b <? utf8.RuneSelf);
        [symmetry; exact Hdec | discriminate Hdec]. }
    rewrite <- (firstn_skipn pos str), Hk, Hb; apply in_or_app; right; left.
    reflexivity.
  - apply (f_equal (@length _)) in Hk; rewrite length_skipn in Hk.
    cbn [length] in Hk; lia.
Qed.

Lemma Parse_returns_without_backslash_witness :
  exists r, Parse [bDquote; "a"%char; " "%char; "b"%char] = Ok r.
Proof.
  apply Parse_returns_without_backslash.
  simpl; intros [H|[H|[H|[H|H]]]]; try discriminate H; exact H.
Defined.

(** ** Runs of one-byte runes *)

Lemma forallb_In {A} (f : A -> bool) l x :
  forallb f l = true -> In x l -> f x = true.
Proof. intros H; apply (proj1 (forallb_forall f l) H). Qed.

Lemma rangeString_ascii s :
  forallb isASCII s = true ->
  rangeString s = combine (seq 0 (length s)) (map byteZ s).
Proof.
  intros H; apply rangeFrom_ascii, Forall_forall; intros b Hb.
  apply Z.ltb_lt; exact (forallb_In _ _ _ H Hb).
Qed.

Lemma scan_ascii s : forallb isASCII s = true -> scan s = feed s 0 s init.
Proof.
  intros H; unfold scan, feed; rewrite (rangeString_ascii s H); reflexivity.
Qed.

Lemma feed_cons str p b s st :
  feed str p (b :: s) st =
  (st' <- body str p (byteZ b) st ;; feed str (S p) s st').
Proof. reflexivity. Qed.

Lemma feed_app str s1 s2 : forall p st,
  feed str p (s1 ++ s2) st =
  (st' <- feed str p s1 st ;; feed str (p + length s1) s2 st').
Proof.
  induction s1 as [|b s1 IH]; intros p st.
  - cbn [app length]; rewrite Nat.add_0_r; reflexivity.
  - cbn [app length]; rewrite !feed_cons.
    destruct (body str p (byteZ b) st) as [st1|]; cbn [bind]; [|reflexivity].
    rewrite IH, Nat.add_succ_r; reflexivity.
Qed.

(** A run all of whose rounds append their rune. *)
Lemma feed_addTokens str (I : state -> Prop) s :
  (forall c st, I st -> I (addToken c st)) ->
  (forall b pos st, In b s -> I st ->
     body str pos (byteZ b) st = Ok (addToken (byteZ b) st)) ->
  forall p st, I st -> feed str p s st = Ok (addTokens (map byteZ s) st).
Proof.
  intros Hkeep; induction s as [|b s IH]; intros Hbody p st HI.
  - reflexivity.
  - rewrite feed_cons, (Hbody b p st (or_introl eq_refl) HI); cbn [bind].
    apply IH; [|apply Hkeep; exact HI].
    intros b' pos st' Hin; apply Hbody; right; exact Hin.
Qed.

Lemma addToken_withRunes c st :
  addToken c st = withRunes (runes st ++ [c]) st.
Proof. destruct st as [[t|] q d e a]; reflexivity. Qed.

Lemma addTokens_withRunes l : forall t st,
  addTokens l (withRunes t st) = withRunes (t ++ l) st.
Proof.
  induction l as [|c l IH]; intros t st; cbn [addTokens fold_left].
  - rewrite app_nil_r; reflexivity.
  - rewrite addToken_withRunes; cbn [runes withRunes token].
    change (fold_left (fun st c => addToken c st) l ?x) with (addTokens l x).
    change (withRunes (t ++ [c]) (withRunes t st)) with (withRunes (t ++ [c]) st).
    rewrite IH, <- app_assoc; reflexivity.
Qed.

Lemma addTokens_mode l q d a :
  l <> [] -> addTokens l (mode q d a) = withRunes l (mode q d a).
Proof.
  destruct l as [|c l]; [congruence|]; intros _.
  cbn [addTokens fold_left]; rewrite addToken_withRunes.
  change (fold_left (fun st c => addToken c st) l ?x) with (addTokens l x).
  rewrite addTokens_withRunes; reflexivity.
Qed.

Lemma ContainsRune_separator r :
  strings.ContainsRune separator r =
  ((32 =? r) || (9 =? r) || (10 =? r) || (13 =? r)).
Proof.
  unfold strings.ContainsRune.
  change (rangeString separator)
    with [(0%nat, 32); (1%nat, 9); (2%nat, 10); (3%nat, 13)].
  cbn [existsb snd]; rewrite orb_false_r, !orb_assoc; reflexivity.
Qed.

Lemma isPlain_spec b :
  isPlain b = true ->
  byteZ b < utf8.RuneSelf /\ unicode.IsSpace (byteZ b) = false
  /\ (byteZ b =? backslash) = false /\ (byteZ b =? dquote) = false
  /\ (byteZ b =? squote) = false
  /\ strings.ContainsRune separator (byteZ b) = false.
Proof.
  unfold isPlain, isASCII; rewrite !andb_true_iff, !negb_true_iff, Z.ltb_lt.
  intros ((((Ha & Hs) & Hb) & Hd) & Hq); repeat split; auto.
  rewrite ContainsRune_separator.
  revert Hs; unfold unicode.IsSpace, utf8.between.
  rewrite !orb_false_iff, !andb_false_iff, !Z.eqb_neq, !Z.leb_gt; lia.
Qed.

Lemma isPlain_ascii s : forallb isPlain s = true -> forallb isASCII s = true.
Proof.
  intros H; apply forallb_forall; intros b Hb.
  apply Z.ltb_lt; exact (proj1 (isPlain_spec b (forallb_In _ _ _ H Hb))).
Qed.

Lemma isSep_spec b :
  isSep b = true -> asciiSpace b /\ isASCII b = true.
Proof.
  unfold isSep; rewrite ContainsRune_separator, !orb_true_iff, !Z.eqb_eq.
  intros H; assert (asciiSpace b) as Hs by (apply asciiSpace_iff; lia).
  split; [exact Hs | apply Z.ltb_lt; exact (proj2 Hs)].
Qed.

(** Whatever the state, a plain byte is appended to the token. *)
Lemma body_plain str pos b st :
  isPlain b = true -> body str pos (byteZ b) st = Ok (addToken (byteZ b) st).
Proof.
  intros H; apply isPlain_spec in H.
  destruct H as (_ & _ & Hb & Hd & Hq & Hs).
  unfold body; rewrite Hb, Hd, Hq, Hs, !andb_false_r; reflexivity.
Qed.

Lemma feed_plain str p s st :
  forallb isPlain s = true ->
  feed str p s st = Ok (addTokens (map byteZ s) st).
Proof.
  intros H; apply (feed_addTokens str (fun _ => True)); auto.
  intros b pos st' Hb _; apply body_plain; exact (forallb_In _ _ _ H Hb).
Qed.

(** An ASCII string is the conversion of its own runes. *)
Lemma string_of_runes_ascii s :
  forallb isASCII s = true -> string_of_runes (map byteZ s) = s.
Proof.
  unfold string_of_runes; induction s as [|b s IH]; cbn [forallb map flat_map].
  - reflexivity.
  - rewrite andb_true_iff; intros [Hb Hs]; rewrite (IH Hs).
    unfold isASCII, utf8.RuneSelf in Hb; apply Z.ltb_lt in Hb.
    pose proof (byteZ_range b) as Hr; unfold utf8.EncodeRune, utf8.between.
    replace (0 <=? byteZ b) with true by (symmetry; apply Z.leb_le; lia).
    replace (byteZ b <=? 127) with true by (symmetry; apply Z.leb_le; lia).
    cbn [andb app]; rewrite byte_of_byteZ; reflexivity.
Qed.

(** ** Words and separators *)

Lemma isSep_not_special b :
  isSep b = true ->
  (byteZ b =? backslash) = false /\ (byteZ b =? dquote) = false
  /\ (byteZ b =? squote) = false.
Proof.
  unfold isSep; rewrite ContainsRune_separator, !orb_true_iff, !Z.eqb_eq.
  unfold backslash, dquote, squote; rewrite !Z.eqb_neq; lia.
Qed.

(** Outside quotes an unescaped separator closes the open token, if any. *)
Lemma body_sep str pos b st :
  isSep b = true ->
  escaped st = false -> inQuotes st = false -> inDbl st = false ->
  body str pos (byteZ b) st =
  Ok match token st with
     | Some t => flushToken t st
     | None => st
     end.
Proof.
  intros Hs He Hq Hd; destruct (isSep_not_special b Hs) as (Hb & Hdq & Hsq).
  unfold isSep in Hs; unfold body.
  rewrite He, Hq, Hd, Hb, Hdq, Hsq, Hs; cbn [negb andb orb].
  destruct (token st); reflexivity.
Qed.

Lemma feed_seps_idle str s : forall p a,
  forallb isSep s = true ->
  feed str p s (mode false false a) = Ok (mode false false a).
Proof.
  induction s as [|b s IH]; intros p a; cbn [forallb]; [reflexivity|].
  rewrite andb_true_iff; intros [Hb Hs].
  rewrite feed_cons, (body_sep str p b _ Hb) by reflexivity; cbn [bind mode token].
  apply IH; exact Hs.
Qed.

Lemma feed_sepRun str p s t a :
  isSepRun s = true ->
  feed str p s (withRunes t (mode false false a)) =
  Ok (mode false false (a ++ [string_of_runes t])).
Proof.
  unfold isSepRun; destruct s as [|b s]; [discriminate|].
  cbn [length Nat.eqb negb andb forallb]; rewrite andb_true_iff; intros [Hb Hs].
  rewrite feed_cons, (body_sep str p b _ Hb) by reflexivity.
  cbn [bind withRunes token].
  exact (feed_seps_idle str s (S p) _ Hs).
Qed.

Lemma feed_word str p w a :
  isWord w = true ->
  feed str p w (mode false false a) =
  Ok (withRunes (map byteZ w) (mode false false a)).
Proof.
  unfold isWord; rewrite andb_true_iff; intros [Hne Hw].
  rewrite (feed_plain str p w _ Hw), addTokens_mode; [reflexivity|].
  destruct w; [discriminate | discriminate].
Qed.

Lemma isWord_ascii w : isWord w = true -> forallb isASCII w = true.
Proof.
  unfold isWord; rewrite andb_true_iff; intros [_ H]; exact (isPlain_ascii w H).
Qed.

(** The loop over words and separator runs, from a state with no open
    token. *)
Lemma feed_joinWords str final ws : forall p a,
  forallb (fun pr => isWord (fst pr) && isSepRun (snd pr)) ws = true ->
  isWord final = true ->
  feed str p (joinWords ws final) (mode false false a) =
  Ok (withRunes (map byteZ final) (mode false false (a ++ map fst ws))).
Proof.
  induction ws as [|[w sep] ws IH]; intros p a Hws Hfinal.
  - cbn [joinWords map]; rewrite app_nil_r; apply feed_word; exact Hfinal.
  - cbn [forallb fst snd] in Hws; rewrite !andb_true_iff in Hws.
    destruct Hws as [[Hw Hsep] Hws].
    cbn [joinWords map fst]; rewrite feed_app, (feed_word str p w a Hw).
    cbn [bind]; rewrite feed_app, (feed_sepRun str _ sep _ a Hsep).
    cbn [bind]; rewrite (string_of_runes_ascii w (isWord_ascii w Hw)).
    rewrite IH by assumption.
    rewrite <- app_assoc; reflexivity.
Qed.

Lemma isPlain_asciiPlain b : isPlain b = true -> asciiPlain b.
Proof.
  intros H; apply isPlain_spec in H; destruct H as (Ha & Hs & _); split; auto.
Qed.

Lemma plainEnds_intro s a t u z :
  s = a :: t -> s = u ++ [z] -> asciiPlain a -> asciiPlain z -> plainEnds s.
Proof.
  intros -> Hz Ha Hzp; cbn [plainEnds]; split; [exact Ha|].
  rewrite Hz, last_last; exact Hzp.
Qed.

Lemma isWord_ends w :
  isWord w = true ->
  exists a t u z, w = a :: t /\ w = u ++ [z] /\ isPlain a = true /\ isPlain z = true.
Proof.
  unfold isWord; rewrite andb_true_iff; intros [Hne Hw].
  destruct w as [|a t]; [discriminate|].
  destruct (exists_last (l := a :: t)) as (u & z & Hz); [discriminate|].
  exists a, t, u, z; repeat split; auto.
  - apply (forallb_In _ _ _ Hw); left; reflexivity.
  - apply (forallb_In _ _ _ Hw); rewrite Hz; apply in_or_app; right; left.
    reflexivity.
Qed.

Lemma joinWords_shape final ws :
  forallb (fun pr => isWord (fst pr) && isSepRun (snd pr)) ws = true ->
  isWord final = true ->
  forallb isASCII (joinWords ws final) = true
  /\ exists a t u z,
       joinWords ws final = a :: t /\ joinWords ws final = u ++ [z]
       /\ isPlain a = true /\ isPlain z = true.
Proof.
  intros Hws Hfinal; induction ws as [|[w sep] ws IH]; cbn [joinWords].
  - split; [apply isWord_ascii; exact Hfinal | apply isWord_ends; exact Hfinal].
  - cbn [forallb fst snd] in Hws; rewrite !andb_true_iff in Hws.
    destruct Hws as [[Hw Hsep] Hws].
    destruct (IH Hws) as (Hascii & a & t & u & z & Ha & Hz & Hpa & Hpz).
    split.
    + rewrite !forallb_app, (isWord_ascii w Hw), Hascii, andb_true_r.
      cbn [andb]; apply forallb_forall; intros b Hb.
      unfold isSepRun in Hsep; rewrite andb_true_iff in Hsep.
      exact (proj2 (isSep_spec b (forallb_In _ _ _ (proj2 Hsep) Hb))).
    + destruct (isWord_ends w Hw) as (a' & t' & _ & _ & Ha' & _ & Hpa' & _).
      exists a', (t' ++ sep ++ joinWords ws final), (w ++ sep ++ u), z.
      split; [rewrite Ha'; reflexivity|].
      split; [rewrite Hz, <- !app_assoc; reflexivity | auto].
Qed.

(** X5: a command line of words made of plain ASCII characters (no white
    space, quote or backslash), with any non-empty run of separators after
    each word but the last, is tokenized into exactly those words, and
    [Parse] returns their split. *)
Theorem Parse_joinWords (ws : list (gostring * gostring)) (final : gostring) :
  forallb (fun pr => isWord (fst pr) && isSepRun (snd pr)) ws = true ->
  isWord final = true ->
  tokens (joinWords ws final) = Ok (map fst ws ++ [final])
  /\ Parse (joinWords ws final) =
     Ok (fst (extractEnvFromArgv (map fst ws ++ [final])),
         snd (extractEnvFromArgv (map fst ws ++ [final])), None).
Proof.
  intros Hws Hfinal.
  destruct (joinWords_shape final ws Hws Hfinal)
    as (Hascii & a & t & u & z & Ha & Hz & Hpa & Hpz).
  assert (strings.TrimSpace (joinWords ws final) = joinWords ws final) as Htrim.
  { apply TrimSpace_plainEnds.
    apply (plainEnds_intro _ a t u z Ha Hz); apply isPlain_asciiPlain; assumption. }
  assert (scan (joinWords ws final) =
          Ok (withRunes (map byteZ final) (mode false false (map fst ws)))) as Hs.
  { rewrite (scan_ascii _ Hascii).
    exact (feed_joinWords (joinWords ws final) final ws 0 [] Hws Hfinal). }
  unfold tokens, Parse; rewrite Htrim, Hs; cbn [bind].
  unfold finish, lastToken; cbn [withRunes mode token inQuotes inDbl argv].
  rewrite (string_of_runes_ascii final (isWord_ascii final Hfinal)).
  split; [reflexivity|].
  destruct (extractEnvFromArgv (map fst ws ++ [final])); reflexivity.
Qed.

Lemma Parse_joinWords_witness :
  tokens (joinWords [(lit "A=1", [bSpace; bTab]); (lit "ls", [bNewline])]
            (lit "-l"))
  = Ok [lit "A=1"; lit "ls"; lit "-l"].
Proof.
  apply (Parse_joinWords
           [(lit "A=1", [bSpace; bTab]); (lit "ls", [bNewline])] (lit "-l"));
    vm_compute; reflexivity.
Defined.

(** ** Quoted text *)

(** Inside single quotes every rune but the single quote is appended. *)
Lemma body_in_squotes str pos char st :
  escaped st = false -> inQuotes st = true -> inDbl st = false ->
  (char =? squote) = false ->
  body str pos char st = Ok (addToken char st).
Proof.
  destruct st as [tok q d e a]; cbn [escaped inQuotes inDbl].
  intros -> -> -> Hq; unfold body; cbn [escaped negb andb].
  rewrite Hq.
  destruct (char =? backslash); [destruct tok; reflexivity|].
  destruct (char =? dquote); [destruct tok; reflexivity|].
  destruct (strings.ContainsRune separator char); reflexivity.
Qed.

(** Inside double quotes every rune but the double quote and the backslash
    is appended. *)
Lemma body_in_dquotes str pos char st :
  escaped st = false -> inQuotes st = false -> inDbl st = true ->
  (char =? dquote) = false -> (char =? backslash) = false ->
  body str pos char st = Ok (addToken char st).
Proof.
  destruct st as [tok q d e a]; cbn [escaped inQuotes inDbl].
  intros -> -> -> Hq Hb; unfold body; cbn [escaped negb andb].
  rewrite Hq, Hb.
  destruct (char =? squote); [destruct tok; reflexivity|].
  destruct (strings.ContainsRune separator char); reflexivity.
Qed.

Lemma feed_in_squotes str p c t a :
  forallb inSquotes c = true ->
  feed str p c (withRunes t (mode true false a)) =
  Ok (withRunes (t ++ map byteZ c) (mode true false a)).
Proof.
  intros Hc.
  rewrite (feed_addTokens str
             (fun st => escaped st = false /\ inQuotes st = true
                        /\ inDbl st = false)).
  - rewrite addTokens_withRunes; reflexivity.
  - intros ch [tok q d e a'] (_ & Hq & Hd); cbn in *; destruct tok; auto.
  - intros b pos st Hb (He & Hq & Hd); apply body_in_squotes; auto.
    pose proof (forallb_In _ _ _ Hc Hb) as H; unfold inSquotes in H.
    rewrite andb_true_iff, negb_true_iff in H; tauto.
  - repeat split.
Qed.

Lemma feed_in_dquotes str p c t a :
  forallb inDquotes c = true ->
  feed str p c (withRunes t (mode false true a)) =
  Ok (withRunes (t ++ map byteZ c) (mode false true a)).
Proof.
  intros Hc.
  rewrite (feed_addTokens str
             (fun st => escaped st = false /\ inQuotes st = false
                        /\ inDbl st = true)).
  - rewrite addTokens_withRunes; reflexivity.
  - intros ch [tok q d e a'] (_ & Hq & Hd); cbn in *; destruct tok; auto.
  - intros b pos st Hb (He & Hq & Hd).
    pose proof (forallb_In _ _ _ Hc Hb) as H; unfold inDquotes in H.
    rewrite !andb_true_iff, !negb_true_iff in H.
    apply body_in_dquotes; tauto.
  - repeat split.
Qed.

(** The state after a run of plain bytes, as the next round finds it. *)
Lemma feed_plain_mode str p s a :
  forallb isPlain s = true ->
  exists st,
    feed str p s (mode false false a) = Ok st
    /\ makeToken st = withRunes (map byteZ s) (mode false false a)
    /\ escaped st = false /\ inQuotes st = false /\ inDbl st = false
    /\ runes st = map byteZ s /\ argv st = a.
Proof.
  intros Hs; rewrite (feed_plain str p s _ Hs).
  destruct s as [|b s]; [exists (mode false false a); repeat split|].
  rewrite addTokens_mode by discriminate.
  eexists; split; [reflexivity|]; repeat split.
Qed.

Lemma feed_plain_withRunes str p s t st :
  forallb isPlain s = true ->
  feed str p s (withRunes t st) = Ok (withRunes (t ++ map byteZ s) st).
Proof.
  intros Hs; rewrite (feed_plain str p s _ Hs), addTokens_withRunes.
  reflexivity.
Qed.

Lemma plainEnds_wrapped p x m y s :
  forallb isPlain p = true -> forallb isPlain s = true ->
  asciiPlain x -> asciiPlain y ->
  plainEnds (p ++ [x] ++ m ++ [y] ++ s).
Proof.
  intros Hp Hs Hx Hy.
  assert (exists a t, p ++ [x] ++ m ++ [y] ++ s = a :: t /\ asciiPlain a)
    as (a & t & Ha & Hpa).
  { destruct p as [|a p]; [exists x; eexists; split; [reflexivity | exact Hx]|].
    exists a; eexists; split; [reflexivity|].
    apply isPlain_asciiPlain, (forallb_In _ _ _ Hp); left; reflexivity. }
  assert (exists u z, p ++ [x] ++ m ++ [y] ++ s = u ++ [z] /\ asciiPlain z)
    as (u & z & Hz & Hpz).
  { destruct s as [|z s _] using rev_ind.
    - exists (p ++ [x] ++ m), y; rewrite <- !app_assoc; auto.
    - exists (p ++ [x] ++ m ++ [y] ++ s), z; rewrite <- !app_assoc; split; auto.
      apply isPlain_asciiPlain, (forallb_In _ _ _ Hs), in_or_app; right; left.
      reflexivity. }
  exact (plainEnds_intro _ a t u z Ha Hz Hpa Hpz).
Qed.

Lemma inSquotes_ascii c : forallb inSquotes c = true -> forallb isASCII c = true.
Proof.
  intros H; apply forallb_forall; intros b Hb.
  pose proof (forallb_In _ _ _ H Hb) as Hi; unfold inSquotes in Hi.
  rewrite andb_true_iff in Hi; tauto.
Qed.

Lemma inDquotes_ascii c : forallb inDquotes c = true -> forallb isASCII c = true.
Proof.
  intros H; apply forallb_forall; intros b Hb.
  pose proof (forallb_In _ _ _ H Hb) as Hi; unfold inDquotes in Hi.
  rewrite !andb_true_iff in Hi; tauto.
Qed.

(** X6: text between single quotes is taken as it is.  For plain [p] and
    [s] and any ASCII text [c] without a single quote (it may hold spaces,
    double quotes and backslashes), the command line [p'c's] is the single
    token [pcs]. *)
Theorem tokens_single_quoted (p c s : gostring) :
  forallb isPlain p = true -> forallb inSquotes c = true ->
  forallb isPlain s = true ->
  tokens (p ++ [bSquote] ++ c ++ [bSquote] ++ s) = Ok [p ++ c ++ s].
Proof.
  intros Hp Hc Hs; set (str := p ++ [bSquote] ++ c ++ [bSquote] ++ s).
  assert (strings.TrimSpace str = str) as Htrim.
  { apply TrimSpace_plainEnds, plainEnds_wrapped; auto; split; reflexivity. }
  assert (forallb isASCII str = true) as Hascii.
  { unfold str; rewrite !forallb_app, (isPlain_ascii p Hp),
      (isPlain_ascii s Hs), (inSquotes_ascii c Hc); reflexivity. }
  unfold tokens; rewrite Htrim, (scan_ascii str Hascii); unfold str at 2.
  change init with (mode false false []); rewrite feed_app.
  destruct (feed_plain_mode str 0 p [] Hp)
    as (st & -> & Hmk & He & Hq & Hd & _); cbn [bind].
  rewrite feed_app; cbn [feed length map seq combine forRange].
  assert (body str (0 + length p) (byteZ bSquote) st =
          Ok (withRunes (map byteZ p) (mode true false []))) as ->.
  { change (byteZ bSquote) with squote; unfold body.
    rewrite He; cbn [negb andb]; change (squote =? backslash) with false.
    change (squote =? dquote) with false; change (squote =? squote) with true.
    cbn iota; rewrite Hmk; reflexivity. }
  cbn [bind]; rewrite feed_app, (feed_in_squotes str _ c _ [] Hc); cbn [bind].
  rewrite feed_app; cbn [feed length map seq combine forRange].
  change (body str ?n (byteZ bSquote) (withRunes ?t (mode true false [])))
    with (Ok (withRunes t (mode false false []))).
  cbn [bind]; fold (feed str (0 + length p + 1 + length c + 1) s).
  rewrite (feed_plain_withRunes str _ s _ _ Hs); cbn [bind].
  unfold lastToken; cbn [withRunes token argv mode app].
  rewrite <- !map_app, string_of_runes_ascii, <- app_assoc; [reflexivity|].
  rewrite !forallb_app, (isPlain_ascii p Hp), (isPlain_ascii s Hs),
    (inSquotes_ascii c Hc); reflexivity.
Qed.

Lemma tokens_single_quoted_witness :
  tokens (lit "a" ++ [bSquote] ++ [" "%char; bDquote; bBackslash]
          ++ [bSquote] ++ lit "z")
  = Ok [lit "a" ++ [" "%char; bDquote; bBackslash] ++ lit "z"].
Proof.
  apply tokens_single_quoted; vm_compute; reflexivity.
Defined.

(** X7: text between double quotes that holds neither a double quote nor a
    backslash is taken as it is.  For plain [p] and [s] and such an ASCII
    text [c] (it may hold spaces and single quotes), the command line
    [p], double quote, [c], double quote, [s] is the single token [pcs]. *)
Theorem tokens_double_quoted (p c s : gostring) :
  forallb isPlain p = true -> forallb inDquotes c = true ->
  forallb isPlain s = true ->
  tokens (p ++ [bDquote] ++ c ++ [bDquote] ++ s) = Ok [p ++ c ++ s].
Proof.
  intros Hp Hc Hs; set (str := p ++ [bDquote] ++ c ++ [bDquote] ++ s).
  assert (strings.TrimSpace str = str) as Htrim.
  { apply TrimSpace_plainEnds, plainEnds_wrapped; auto; split; reflexivity. }
  assert (forallb isASCII str = true) as Hascii.
  { unfold str; rewrite !forallb_app, (isPlain_ascii p Hp),
      (isPlain_ascii s Hs), (inDquotes_ascii c Hc); reflexivity. }
  unfold tokens; rewrite Htrim, (scan_ascii str Hascii); unfold str at 2.
  change init with (mode false false []); rewrite feed_app.
  destruct (feed_plain_mode str 0 p [] Hp)
    as (st & -> & Hmk & He & Hq & Hd & _); cbn [bind].
  rewrite feed_app; cbn [feed length map seq combine forRange].
  assert (body str (0 + length p) (byteZ bDquote) st =
          Ok (withRunes (map byteZ p) (mode false true []))) as ->.
  { change (byteZ bDquote) with dquote; unfold body.
    rewrite He; cbn [negb andb]; change (dquote =? backslash) with false.
    change (dquote =? dquote) with true.
    cbn iota; rewrite Hmk; reflexivity. }
  cbn [bind]; rewrite feed_app, (feed_in_dquotes str _ c _ [] Hc); cbn [bind].
  rewrite feed_app; cbn [feed length map seq combine forRange].
  change (body str ?n (byteZ bDquote) (withRunes ?t (mode false true [])))
    with (Ok (withRunes t (mode false false []))).
  cbn [bind]; fold (feed str (0 + length p + 1 + length c + 1) s).
  rewrite (feed_plain_withRunes str _ s _ _ Hs); cbn [bind].
  unfold lastToken; cbn [withRunes token argv mode app].
  rewrite <- !map_app, string_of_runes_ascii, <- app_assoc; [reflexivity|].
  rewrite !forallb_app, (isPlain_ascii p Hp), (isPlain_ascii s Hs),
    (inDquotes_ascii c Hc); reflexivity.
Qed.

Lemma tokens_double_quoted_witness :
  tokens (lit "x=" ++ [bDquote] ++ lit "it's here" ++ [bDquote] ++ lit "")
  = Ok [lit "x=" ++ lit "it's here" ++ lit ""].
Proof.
  apply tokens_double_quoted; vm_compute; reflexivity.
Defined.

(** ** Escapes outside quotes *)

(** With [escaped] on, the rune is appended whatever it is. *)
Lemma body_escaped str pos char st :
  escaped st = true -> body str pos char st = Ok (addToken char st).
Proof.
  intros He; unfold body; rewrite He; reflexivity.
Qed.

(** X8: outside quotes a backslash makes the character after it an
    ordinary one and is itself dropped.  For plain [p], any ASCII byte [x]
    (a space, a quote or a backslash too) and a plain word [s], the command
    line [p], backslash, [x], [s] is the single token [pxs]. *)
Theorem tokens_backslash_escape (p s : gostring) (x : ascii) :
  forallb isPlain p = true -> isASCII x = true -> isWord s = true ->
  tokens (p ++ [bBackslash; x] ++ s) = Ok [p ++ [x] ++ s].
Proof.
  intros Hp Hx Hs; set (str := p ++ [bBackslash; x] ++ s).
  pose proof Hs as Hw; unfold isWord in Hw; rewrite andb_true_iff in Hw.
  destruct Hw as [_ Hsp].
  assert (strings.TrimSpace str = str) as Htrim.
  { apply TrimSpace_plainEnds.
    destruct (isWord_ends s Hs) as (_ & _ & u & z & _ & Hz & _ & Hpz).
    assert (exists a t, str = a :: t /\ asciiPlain a) as (a & t & Ha & Hpa).
    { unfold str; destruct p as [|a p].
      - exists bBackslash; eexists; split; [reflexivity | split; reflexivity].
      - exists a; eexists; split; [reflexivity|].
        apply isPlain_asciiPlain, (forallb_In _ _ _ Hp); left; reflexivity. }
    apply (plainEnds_intro str a t (p ++ [bBackslash; x] ++ u) z Ha).
    - unfold str; rewrite Hz, <- !app_assoc; reflexivity.
    - exact Hpa.
    - apply isPlain_asciiPlain; exact Hpz. }
  assert (forallb isASCII (p ++ [x] ++ s) = true) as Hout.
  { rewrite !forallb_app, (isPlain_ascii p Hp), (isPlain_ascii s Hsp).
    cbn [forallb]; rewrite Hx; reflexivity. }
  assert (forallb isASCII str = true) as Hascii.
  { unfold str; rewrite !forallb_app, (isPlain_ascii p Hp),
      (isPlain_ascii s Hsp); cbn [forallb]; rewrite Hx; reflexivity. }
  unfold tokens; rewrite Htrim, (scan_ascii str Hascii); unfold str at 2.
  change init with (mode false false []); rewrite feed_app.
  destruct (feed_plain_mode str 0 p [] Hp)
    as (st & -> & _ & He & Hq & Hd & Hr & Ha); cbn [bind].
  rewrite feed_app; cbn [feed length map seq combine forRange].
  assert (body str (0 + length p) (byteZ bBackslash) st =
          Ok (set_escaped true st)) as ->.
  { change (byteZ bBackslash) with backslash; unfold body.
    rewrite He; cbn [negb andb]; change (backslash =? backslash) with true.
    cbn [set_escaped inQuotes inDbl]; rewrite Hq, Hd; reflexivity. }
  cbn [bind]; rewrite body_escaped by reflexivity; cbn [bind].
  rewrite addToken_withRunes.
  assert (forall l, withRunes (runes (set_escaped true st) ++ l)
                      (set_escaped true st)
                    = withRunes (map byteZ p ++ l) (mode false false [])) as Hwr.
  { intros l; change (runes (set_escaped true st)) with (runes st).
    unfold withRunes; cbn [set_escaped inQuotes inDbl argv mode].
    rewrite Hr, Hq, Hd, Ha; reflexivity. }
  rewrite Hwr.
  fold (feed str (0 + length p + 2) s).
  rewrite (feed_plain_withRunes str _ s _ _ Hsp); cbn [bind].
  unfold lastToken; cbn [withRunes token argv mode app].
  change [byteZ x] with (map byteZ [x]).
  rewrite <- !map_app, string_of_runes_ascii, <- app_assoc; [reflexivity|].
  rewrite <- app_assoc; exact Hout.
Qed.

Lemma tokens_backslash_escape_witness :
  tokens (lit "a" ++ [bBackslash; bSpace] ++ lit "b") = Ok [lit "a b"].
Proof.
  apply (tokens_backslash_escape (lit "a") (lit "b") bSpace);
    vm_compute; reflexivity.
Defined.

(** ** Quotes left open *)

(** After a leading ASCII byte that is not white space, trimming an ASCII
    string only takes bytes off its end. *)
Lemma TrimSpace_ascii_head a c :
  asciiPlain a -> forallb isASCII c = true ->
  exists c' t, c = c' ++ t /\ strings.TrimSpace (a :: c) = a :: c'.
Proof.
  intros [Hsp Hlt] Hc; unfold strings.TrimSpace, strings.TrimFunc.
  rewrite TrimLeftFunc_cons_keep by assumption.
  induction c as [|x c IH] using rev_ind.
  - exists [], []; split; [reflexivity|].
    exact (TrimRightFunc_snoc_keep unicode.IsSpace [] a Hlt Hsp).
  - rewrite forallb_app in Hc; cbn [forallb] in Hc.
    rewrite !andb_true_iff in Hc; destruct Hc as (Hc & Hx & _).
    unfold isASCII in Hx; apply Z.ltb_lt in Hx.
    change (a :: c ++ [x]) with ((a :: c) ++ [x]).
    destruct (unicode.IsSpace (byteZ x)) eqn:E.
    + rewrite TrimRightFunc_snoc_drop by assumption.
      destruct (IH Hc) as (c' & t & -> & Ht).
      exists c', (t ++ [x]); rewrite <- app_assoc; auto.
    + rewrite TrimRightFunc_snoc_keep by assumption.
      exists (c ++ [x]), []; rewrite app_nil_r; auto.
Qed.

(** X9: a quote that is opened and never closed always gives the
    unbalanced-quotes error, with no env and no argv.  This holds for a
    single quote followed by any ASCII text without a single quote, and for
    a double quote followed by any ASCII text without a double quote and
    without a backslash. *)
Theorem Parse_open_quote_error (c : gostring) :
  (forallb inSquotes c = true ->
   Parse (bSquote :: c) = Ok ([], [], Some ErrUnbalancedQuotes))
  /\ (forallb inDquotes c = true ->
      Parse (bDquote :: c) = Ok ([], [], Some ErrUnbalancedQuotes)).
Proof.
  split; intros Hc.
  - destruct (TrimSpace_ascii_head bSquote c) as (c' & t & -> & Htrim);
      [split; reflexivity | exact (inSquotes_ascii c Hc) |].
    rewrite forallb_app, andb_true_iff in Hc; destruct Hc as [Hc _].
    unfold Parse; rewrite Htrim, scan_ascii
      by (cbn [forallb]; rewrite (inSquotes_ascii c' Hc); reflexivity).
    rewrite feed_cons.
    change (body _ 0 (byteZ bSquote) init)
      with (Ok (withRunes [] (mode true false []))).
    cbn [bind]; rewrite (feed_in_squotes _ 1 c' [] [] Hc); reflexivity.
  - destruct (TrimSpace_ascii_head bDquote c) as (c' & t & -> & Htrim);
      [split; reflexivity | exact (inDquotes_ascii c Hc) |].
    rewrite forallb_app, andb_true_iff in Hc; destruct Hc as [Hc _].
    unfold Parse; rewrite Htrim, scan_ascii
      by (cbn [forallb]; rewrite (inDquotes_ascii c' Hc); reflexivity).
    rewrite feed_cons.
    change (body _ 0 (byteZ bDquote) init)
      with (Ok (withRunes [] (mode false true []))).
    cbn [bind]; rewrite (feed_in_dquotes _ 1 c' [] [] Hc); reflexivity.
Qed.

Lemma Parse_open_quote_error_witness :
  Parse (bSquote :: lit "ls -l  ") = Ok ([], [], Some ErrUnbalancedQuotes)
  /\ Parse (bDquote :: lit "it's ") = Ok ([], [], Some ErrUnbalancedQuotes).
Proof.
  split.
  - apply (proj1 (Parse_open_quote_error (lit "ls -l  "))); vm_compute; reflexivity.
  - apply (proj2 (Parse_open_quote_error (lit "it's "))); vm_compute; reflexivity.
Defined.

(** ** The number of tokens *)

Lemma body_argv str pos char st st' :
  body str pos char st = Ok st' ->
  (length (argv st') <=
   length (argv st)
   + (if strings.ContainsRune separator char then 1 else 0))%nat.
Proof.
  unfold body, addToken, makeToken, flushToken, runes, set_escaped,
    set_inQuotes, set_inDbl, set_token.
  destruct st as [tok q d e a]; cbn [token inQuotes inDbl escaped argv].
  destruct (strings.ContainsRune separator char) eqn:Es;
    destruct e, q, d; cbn [negb andb orb]; rewrite ?andb_false_r;
    repeat match goal with
      | |- context [if ?c then _ else _] =>
          lazymatch c with
          | context [if _ then _ else _] => fail
          | _ => destruct c
          end
      | |- context [match ?c with Some _ => _ | None => _ end] => destruct c
      end;
    try discriminate; intros [= <-]; cbn [argv];
    rewrite ?length_app; cbn [length]; lia.
Qed.

Lemma forRange_argv str l : forall st st',
  forRange (body str) l st = Ok st' ->
  (length (argv st') <=
   length (argv st)
   + length (filter (fun pr => strings.ContainsRune separator (snd pr)) l))%nat.
Proof.
  induction l as [|[pos char] l IH]; intros st st'; cbn [forRange filter snd].
  - intros [= <-]; cbn [length]; lia.
  - destruct (body str pos char st) as [st1|] eqn:E; cbn [bind]; [|discriminate].
    intros H; apply IH in H; apply body_argv in E.
    destruct (strings.ContainsRune separator char); cbn [length]; lia.
Qed.

(** X10: the tokenizer stage never yields more tokens than the trimmed
    command line has separator characters, plus one. *)
Theorem tokens_count_bound (str : gostring) (toks : list gostring) :
  tokens str = Ok toks ->
  (length toks <= length (separatorRunes (strings.TrimSpace str)) + 1)%nat.
Proof.
  unfold tokens, scan, separatorRunes.
  destruct (forRange _ _ init) as [st|] eqn:E; cbn [bind]; [|discriminate].
  intros [= <-]; apply forRange_argv in E; cbn [init argv length] in E.
  unfold lastToken; destruct (token st); rewrite length_app; cbn [length]; lia.
Qed.

Lemma tokens_count_bound_witness :
  (length [lit "a"; lit "b c"; lit "d"]
   <= length (separatorRunes (strings.TrimSpace (lit " a   'b c' d "))) + 1)%nat.
Proof.
  apply (tokens_count_bound (lit " a   'b c' d ")); vm_compute; reflexivity.
Defined.

(** ** Splitting again *)

(** X11: the split is stable.  Whatever [extractEnvFromArgv] returns,
    splitting its argv again finds no env and gives the same argv back, and
    splitting its env gives two empty lists. *)
Theorem extractEnvFromArgv_stable (toks env args : list gostring) :
  extractEnvFromArgv toks = (env, args) ->
  extractEnvFromArgv args = ([], args)
  /\ extractEnvFromArgv env = ([], []).
Proof.
  destruct (extractEnvFromArgv_cases toks) as [[H _]|H].
  - rewrite H; intros [= <- <-]; split; reflexivity.
  - apply (extractLoop_split [] _ (Forall_nil _)) in H.
    cbn [app length] in H; unfold extractEnvFromArgv at 1.
    destruct H as (env' & a & tl & -> & _ & Henv & Ha).
    intros [= <- <-]; split.
    + unfold extractEnvFromArgv; cbn [extractLoop].
      destruct (strings.Contains a (lit "=")) eqn:E; [|reflexivity].
      apply Contains_eq_sign in E; contradiction.
    + apply extractLoop_all_assignments; exact Henv.
Qed.

Lemma extractEnvFromArgv_stable_witness :
  extractEnvFromArgv [lit "ls"; lit "a=b"] = ([], [lit "ls"; lit "a=b"])
  /\ extractEnvFromArgv [lit "A=1"] = ([], []).
Proof.
  apply (extractEnvFromArgv_stable [lit "A=1"; lit "ls"; lit "a=b"]).
  vm_compute; reflexivity.
Defined.

(** ** Text beyond ASCII *)

Lemma byteZ_byte_of z : 0 <= z < 256 -> byteZ (byte_of z) = z.
Proof.
  intros H; unfold byteZ, byte_of.
  rewrite N_ascii_embedding by lia; lia.
Qed.

(** Bits that do not overlap add up. *)
Lemma lor_add h k a :
  0 <= k -> 0 <= a < 2 ^ k -> Z.lor (h * 2 ^ k) a = h * 2 ^ k + a.
Proof.
  intros Hk Ha.
  assert (Z.land (h * 2 ^ k) a = 0) as Hland.
  { apply Z.bits_inj'; intros n Hn.
    rewrite Z.land_spec, Z.bits_0, <- Z.shiftl_mul_pow2 by exact Hk.
    destruct (Z.lt_ge_cases n k) as [Hlt|Hge].
    - rewrite Z.shiftl_spec_low by exact Hlt; reflexivity.
    - destruct (Z.eq_dec a 0) as [->|Hnz].
      + rewrite Z.bits_0, andb_false_r; reflexivity.
      + rewrite (Z.bits_above_log2 a n), andb_false_r; [reflexivity | lia |].
        apply Z.lt_le_trans with k; [|exact Hge].
        apply Z.log2_lt_pow2; lia. }
  pose proof (Z.add_lor_land (h * 2 ^ k) a) as H; rewrite Hland in H; lia.
Qed.

Lemma land_63 x : Z.land x 63 = x mod 64.
Proof. exact (Z.land_ones x 6 ltac:(lia)). Qed.

(** The value of a continuation byte that [EncodeRune] writes. *)
Lemma cont_byte x :
  byteZ (byte_of (Z.lor 128 (Z.land x 63))) = 128 + x mod 64.
Proof.
  rewrite land_63; pose proof (Z.mod_pos_bound x 64 ltac:(lia)) as Hm.
  change 128 with (2 * 2 ^ 6) at 1; rewrite lor_add by lia.
  rewrite byteZ_byte_of; lia.
Qed.

(** The value of a leading byte: the marker [h * 2 ^ k] and the top bits
    [q] of the rune. *)
Lemma lead_byte h k q :
  0 <= k -> 0 <= q < 2 ^ k -> 0 <= h -> h * 2 ^ k + q < 256 ->
  byteZ (byte_of (Z.lor (h * 2 ^ k) q)) = h * 2 ^ k + q.
Proof.
  intros Hk Hq Hh Hlt; rewrite lor_add by assumption.
  apply byteZ_byte_of; nia.
Qed.

Lemma low6_cont b x : byteZ b = 128 + x mod 64 -> utf8.low6 b = x mod 64.
Proof.
  intros H; unfold utf8.low6; rewrite land_63, H.
  pose proof (Z.mod_pos_bound x 64 ltac:(lia)) as Hm.
  change 128 with (2 * 64); rewrite Z.add_comm, Z.mod_add by lia.
  apply Z.mod_small; exact Hm.
Qed.

Ltac tests_to_Z :=
  repeat match goal with
    | H : _ && _ = true |- _ => apply andb_true_iff in H; destruct H
    | H : _ && _ = false |- _ => apply andb_false_iff in H
    | H : _ || _ = true |- _ => apply orb_true_iff in H
    | H : _ || _ = false |- _ => apply orb_false_iff in H; destruct H
    | H : negb _ = true |- _ => apply negb_true_iff in H
    | H : negb _ = false |- _ => apply negb_false_iff in H
    | H : (_ <? _) = true |- _ => apply Z.ltb_lt in H
    | H : (_ <? _) = false |- _ => apply Z.ltb_ge in H
    | H : (_ <=? _) = true |- _ => apply Z.leb_le in H
    | H : (_ <=? _) = false |- _ => apply Z.leb_gt in H
    | H : (_ =? _) = true |- _ => apply Z.eqb_eq in H
    | H : (_ =? _) = false |- _ => apply Z.eqb_neq in H
    end.

Ltac split_ifs :=
  repeat match goal with
    | |- context [if ?c then _ else _] =>
        lazymatch c with
        | context [if _ then _ else _] => fail
        | _ => destruct c eqn:?
        end
    end.

Lemma Encode2 r :
  128 <= r <= 2047 ->
  exists b0 b1, utf8.EncodeRune r = [b0; b1]
    /\ byteZ b0 = 192 + r / 64 /\ byteZ b1 = 128 + r mod 64.
Proof.
  intros Hr; unfold utf8.EncodeRune, utf8.between.
  replace (0 <=? r) with true by (symmetry; apply Z.leb_le; lia).
  replace (r <=? 127) with false by (symmetry; apply Z.leb_gt; lia).
  replace (128 <=? r) with true by (symmetry; apply Z.leb_le; lia).
  replace (r <=? 2047) with true by (symmetry; apply Z.leb_le; lia).
  cbn [andb]; eexists; eexists; split; [reflexivity|]; split.
  - rewrite Z.shiftr_div_pow2 by lia; change (2 ^ 6) with 64.
    change 192 with (3 * 2 ^ 6); apply lead_byte; try lia.
    all: change (2 ^ 6) with 64; Z.div_mod_to_equations; lia.
  - apply cont_byte.
Qed.

Lemma Encode3 r :
  2048 <= r <= 65535 -> ~ (55296 <= r <= 57343) ->
  exists b0 b1 b2, utf8.EncodeRune r = [b0; b1; b2]
    /\ byteZ b0 = 224 + r / 4096 /\ byteZ b1 = 128 + (r / 64) mod 64
    /\ byteZ b2 = 128 + r mod 64.
Proof.
  intros Hr Hs; unfold utf8.EncodeRune, utf8.between, utf8.MaxRune.
  replace (r <=? 127) with false by (symmetry; apply Z.leb_gt; lia).
  replace (r <=? 2047) with false by (symmetry; apply Z.leb_gt; lia).
  replace (r <? 0) with false by (symmetry; apply Z.ltb_ge; lia).
  replace (1114111 <? r) with false by (symmetry; apply Z.ltb_ge; lia).
  replace ((55296 <=? r) && (r <=? 57343)) with false
    by (symmetry; apply andb_false_iff; rewrite !Z.leb_gt; lia).
  replace (r <=? 65535) with true by (symmetry; apply Z.leb_le; lia).
  rewrite !andb_false_r; cbn [orb andb]; unfold utf8.encode3.
  do 3 eexists; split; [reflexivity|]; split; [|split].
  - rewrite Z.shiftr_div_pow2 by lia; change (2 ^ 12) with 4096.
    change 224 with (7 * 2 ^ 5); apply lead_byte; try lia.
    all: change (2 ^ 5) with 32; Z.div_mod_to_equations; lia.
  - rewrite Z.shiftr_div_pow2 by lia; apply cont_byte.
  - apply cont_byte.
Qed.

Lemma Encode4 r :
  65536 <= r <= 1114111 ->
  exists b0 b1 b2 b3, utf8.EncodeRune r = [b0; b1; b2; b3]
    /\ byteZ b0 = 240 + r / 262144 /\ byteZ b1 = 128 + (r / 4096) mod 64
    /\ byteZ b2 = 128 + (r / 64) mod 64 /\ byteZ b3 = 128 + r mod 64.
Proof.
  intros Hr; unfold utf8.EncodeRune, utf8.between, utf8.MaxRune.
  replace (r <=? 127) with false by (symmetry; apply Z.leb_gt; lia).
  replace (r <=? 2047) with false by (symmetry; apply Z.leb_gt; lia).
  replace (r <? 0) with false by (symmetry; apply Z.ltb_ge; lia).
  replace (1114111 <? r) with false by (symmetry; apply Z.ltb_ge; lia).
  replace (r <=? 57343) with false by (symmetry; apply Z.leb_gt; lia).
  replace (r <=? 65535) with false by (symmetry; apply Z.leb_gt; lia).
  rewrite !andb_false_r; cbn [orb andb].
  do 4 eexists; split; [reflexivity|]; split; [|split; [|split]].
  - rewrite Z.shiftr_div_pow2 by lia; change (2 ^ 18) with 262144.
    change 240 with (15 * 2 ^ 4); apply lead_byte; try lia.
    all: change (2 ^ 4) with 16; Z.div_mod_to_equations; lia.
  - rewrite Z.shiftr_div_pow2 by lia; apply cont_byte.
  - rewrite Z.shiftr_div_pow2 by lia; apply cont_byte.
  - apply cont_byte.
Qed.

Lemma land_ones_const x k : 0 <= k -> Z.land x (2 ^ k - 1) = x mod 2 ^ k.
Proof.
  intros Hk; rewrite <- Z.land_ones by exact Hk.
  rewrite Z.ones_equiv, Z.sub_1_r; reflexivity.
Qed.

Lemma Decode2 b0 b1 rest r :
  128 <= r <= 2047 ->
  byteZ b0 = 192 + r / 64 -> byteZ b1 = 128 + r mod 64 ->
  utf8.DecodeRuneInString (b0 :: b1 :: rest) = (r, 2%nat).
Proof.
  intros Hr H0 H1; unfold utf8.DecodeRuneInString.
  rewrite (low6_cont b1 r H1).
  unfold utf8.second_ok, utf8.between, utf8.RuneSelf; rewrite H0, H1.
  change 31 with (2 ^ 5 - 1); rewrite land_ones_const by lia.
  rewrite Z.shiftl_mul_pow2 by lia.
  split_ifs; tests_to_Z; try (exfalso; Z.div_mod_to_equations; lia).
  all: f_equal; rewrite lor_add; Z.div_mod_to_equations; lia.
Qed.

Ltac pow_consts :=
  change (2 ^ 3) with 8 in *; change (2 ^ 4) with 16 in *;
  change (2 ^ 5) with 32 in *; change (2 ^ 6) with 64 in *;
  change (2 ^ 12) with 4096 in *; change (2 ^ 18) with 262144 in *.

Lemma Decode3 b0 b1 b2 rest r :
  2048 <= r <= 65535 -> ~ (55296 <= r <= 57343) ->
  byteZ b0 = 224 + r / 4096 -> byteZ b1 = 128 + (r / 64) mod 64 ->
  byteZ b2 = 128 + r mod 64 ->
  utf8.DecodeRuneInString (b0 :: b1 :: b2 :: rest) = (r, 3%nat).
Proof.
  intros Hr Hs H0 H1 H2; unfold utf8.DecodeRuneInString.
  rewrite (low6_cont b1 _ H1), (low6_cont b2 r H2).
  unfold utf8.second_ok, utf8.cont, utf8.between, utf8.RuneSelf.
  rewrite H0, H1, H2.
  split_ifs; tests_to_Z; try (exfalso; Z.div_mod_to_equations; lia).
  all: f_equal; change 15 with (2 ^ 4 - 1); rewrite land_ones_const by lia.
  all: rewrite !Z.shiftl_mul_pow2 by lia.
  all: rewrite (lor_add _ 6) by (pow_consts; Z.div_mod_to_equations; lia).
  all: rewrite (lor_add _ 12) by (pow_consts; Z.div_mod_to_equations; lia).
  all: pow_consts; Z.div_mod_to_equations; lia.
Qed.

Lemma Decode4 b0 b1 b2 b3 rest r :
  65536 <= r <= 1114111 ->
  byteZ b0 = 240 + r / 262144 -> byteZ b1 = 128 + (r / 4096) mod 64 ->
  byteZ b2 = 128 + (r / 64) mod 64 -> byteZ b3 = 128 + r mod 64 ->
  utf8.DecodeRuneInString (b0 :: b1 :: b2 :: b3 :: rest) = (r, 4%nat).
Proof.
  intros Hr H0 H1 H2 H3; unfold utf8.DecodeRuneInString.
  rewrite (low6_cont b1 _ H1), (low6_cont b2 _ H2), (low6_cont b3 r H3).
  unfold utf8.second_ok, utf8.cont, utf8.between, utf8.RuneSelf.
  rewrite H0, H1, H2, H3.
  split_ifs; tests_to_Z; try (exfalso; Z.div_mod_to_equations; lia).
  all: f_equal; change 7 with (2 ^ 3 - 1); rewrite land_ones_const by lia.
  all: rewrite !Z.shiftl_mul_pow2 by lia.
  all: rewrite (lor_add _ 6) by (pow_consts; Z.div_mod_to_equations; lia).
  all: rewrite (lor_add _ 12) by (pow_consts; Z.div_mod_to_equations; lia).
  all: rewrite (lor_add _ 18) by (pow_consts; Z.div_mod_to_equations; lia).
  all: pow_consts; Z.div_mod_to_equations; lia.
Qed.

Lemma isScalar_spec r :
  isScalar r = true ->
  128 <= r <= 1114111 /\ ~ (55296 <= r <= 57343).
Proof.
  unfold isScalar, utf8.between, utf8.RuneSelf, utf8.MaxRune; intros H.
  tests_to_Z; lia.
Qed.

(** Decoding what [EncodeRune] wrote gives the rune back, whatever
    follows. *)
Lemma Decode_Encode r rest :
  isScalar r = true ->
  utf8.DecodeRuneInString (utf8.EncodeRune r ++ rest) =
  (r, length (utf8.EncodeRune r)).
Proof.
  intros H; apply isScalar_spec in H; destruct H as [Hr Hs].
  destruct (Z_le_gt_dec r 2047) as [H2|H2];
    [|destruct (Z_le_gt_dec r 65535) as [H3|H3]].
  - destruct (Encode2 r) as (b0 & b1 & -> & E0 & E1); [lia|].
    exact (Decode2 b0 b1 rest r ltac:(lia) E0 E1).
  - destruct (Encode3 r) as (b0 & b1 & b2 & -> & E0 & E1 & E2); [lia | exact Hs |].
    exact (Decode3 b0 b1 b2 rest r ltac:(lia) Hs E0 E1 E2).
  - destruct (Encode4 r) as (b0 & b1 & b2 & b3 & -> & E0 & E1 & E2 & E3); [lia|].
    exact (Decode4 b0 b1 b2 b3 rest r ltac:(lia) E0 E1 E2 E3).
Qed.

Lemma rangeFrom_skip l1 l2 : forall pos,
  rangeFrom pos (length l1) (l1 ++ l2) = rangeFrom (pos + length l1) 0 l2.
Proof.
  induction l1 as [|b l1 IH]; intros pos; cbn [length app].
  - rewrite Nat.add_0_r; reflexivity.
  - cbn [rangeFrom]; rewrite IH, Nat.add_succ_r; reflexivity.
Qed.

Lemma rangeFrom_Encode r rest pos :
  isScalar r = true ->
  rangeFrom pos 0 (utf8.EncodeRune r ++ rest) =
  (pos, r) :: rangeFrom (pos + length (utf8.EncodeRune r)) 0 rest.
Proof.
  intros H; pose proof (Decode_Encode r rest H) as Hd.
  destruct (utf8.EncodeRune r) as [|b0 tl] eqn:E.
  - unfold utf8.EncodeRune, utf8.encode3 in E.
    revert E; split_ifs; discriminate.
  - cbn [app rangeFrom]; cbn [app] in Hd; rewrite Hd; cbn [length Nat.sub].
    rewrite Nat.sub_0_r, rangeFrom_skip, Nat.add_succ_r; reflexivity.
Qed.

(** Ranging over the conversion of scalar values yields those values. *)
Lemma rangeFrom_string_of_runes rs rest : forall pos,
  forallb isScalar rs = true ->
  exists l,
    rangeFrom pos 0 (string_of_runes rs ++ rest) =
    l ++ rangeFrom (pos + length (string_of_runes rs)) 0 rest
    /\ map snd l = rs.
Proof.
  unfold string_of_runes; induction rs as [|r rs IH]; intros pos Hrs.
  - exists []; cbn [flat_map app length map]; rewrite Nat.add_0_r; auto.
  - cbn [forallb] in Hrs; apply andb_true_iff in Hrs; destruct Hrs as [Hr Hrs].
    cbn [flat_map]; rewrite <- app_assoc, (rangeFrom_Encode r _ pos Hr).
    destruct (IH (pos + length (utf8.EncodeRune r))%nat Hrs) as (l & -> & Hl).
    exists ((pos, r) :: l); cbn [app map snd]; rewrite Hl, length_app, Nat.add_assoc.
    auto.
Qed.

Lemma rangeFrom_ascii_app p rest : forall pos,
  forallb isASCII p = true ->
  rangeFrom pos 0 (p ++ rest) =
  combine (seq pos (length p)) (map byteZ p)
  ++ rangeFrom (pos + length p) 0 rest.
Proof.
  induction p as [|b p IH]; intros pos Hp.
  - cbn [app length seq map combine]; rewrite Nat.add_0_r; reflexivity.
  - cbn [forallb] in Hp; apply andb_true_iff in Hp; destruct Hp as [Hb Hp].
    unfold isASCII in Hb; apply Z.ltb_lt in Hb.
    cbn [app rangeFrom length seq map combine].
    rewrite (Decode_ascii _ _ Hb); cbn [Nat.sub].
    rewrite (IH (S pos) Hp), Nat.add_succ_r; reflexivity.
Qed.

Lemma rangeFrom_isASCII s pos :
  forallb isASCII s = true ->
  rangeFrom pos 0 s = combine (seq pos (length s)) (map byteZ s).
Proof.
  intros H; rewrite <- (app_nil_r s) at 1.
  rewrite (rangeFrom_ascii_app s [] pos H); apply app_nil_r.
Qed.

(** A scalar value beyond ASCII is appended to the token, whatever the
    state. *)
Lemma body_scalar str pos r st :
  isScalar r = true -> body str pos r st = Ok (addToken r st).
Proof.
  intros H; apply isScalar_spec in H; destruct H as [Hr _].
  unfold body; rewrite ContainsRune_separator.
  unfold backslash, dquote, squote.
  replace (r =? 92) with false by (symmetry; apply Z.eqb_neq; lia).
  replace (r =? 34) with false by (symmetry; apply Z.eqb_neq; lia).
  replace (r =? 39) with false by (symmetry; apply Z.eqb_neq; lia).
  replace (32 =? r) with false by (symmetry; apply Z.eqb_neq; lia).
  replace (9 =? r) with false by (symmetry; apply Z.eqb_neq; lia).
  replace (10 =? r) with false by (symmetry; apply Z.eqb_neq; lia).
  replace (13 =? r) with false by (symmetry; apply Z.eqb_neq; lia).
  rewrite !andb_false_r; reflexivity.
Qed.

Lemma forRange_scalars str l : forall st,
  forallb isScalar (map snd l) = true ->
  forRange (body str) l st = Ok (addTokens (map snd l) st).
Proof.
  induction l as [|[pos r] l IH]; intros st Hl; [reflexivity|].
  cbn [map snd forallb] in Hl; apply andb_true_iff in Hl; destruct Hl as [Hr Hl].
  cbn [forRange map snd]; rewrite (body_scalar str pos r st Hr); cbn [bind].
  rewrite (IH _ Hl); reflexivity.
Qed.

Lemma string_of_runes_app l1 l2 :
  string_of_runes (l1 ++ l2) = string_of_runes l1 ++ string_of_runes l2.
Proof. unfold string_of_runes; apply flat_map_app. Qed.

(** X12: text beyond ASCII passes through unchanged.  Inside a word that
    begins and ends with plain ASCII characters, the UTF-8 encoding of any
    Unicode scalar values (U+0080 to U+10FFFF, surrogate halves apart)
    reaches the token byte for byte. *)
Theorem tokens_utf8_text (p s : gostring) (rs : list rune) :
  isWord p = true -> forallb isScalar rs = true -> isWord s = true ->
  tokens (p ++ string_of_runes rs ++ s) = Ok [p ++ string_of_runes rs ++ s].
Proof.
  intros Hp Hrs Hs; set (str := p ++ string_of_runes rs ++ s).
  assert (strings.TrimSpace str = str) as Htrim.
  { apply TrimSpace_plainEnds.
    destruct (isWord_ends p Hp) as (a & t & _ & _ & Ha & _ & Hpa & _).
    destruct (isWord_ends s Hs) as (_ & _ & u & z & _ & Hz & _ & Hpz).
    apply (plainEnds_intro str a (t ++ string_of_runes rs ++ s)
             (p ++ string_of_runes rs ++ u) z).
    - unfold str; rewrite Ha; reflexivity.
    - unfold str; rewrite Hz, <- !app_assoc; reflexivity.
    - apply isPlain_asciiPlain; exact Hpa.
    - apply isPlain_asciiPlain; exact Hpz. }
  unfold tokens, scan; rewrite Htrim; unfold rangeString, str at 2.
  rewrite (rangeFrom_ascii_app p _ 0 (isWord_ascii p Hp)).
  destruct (rangeFrom_string_of_runes rs s (0 + length p) Hrs) as (l & -> & Hl).
  rewrite (rangeFrom_isASCII s _ (isWord_ascii s Hs)).
  rewrite forRange_app.
  change (forRange (body str) (combine (seq 0 (length p)) (map byteZ p)) init)
    with (feed str 0 p (mode false false [])).
  rewrite (feed_word str 0 p [] Hp); cbn [bind].
  rewrite forRange_app.
  rewrite (forRange_scalars str l) by (rewrite Hl; exact Hrs); cbn [bind].
  rewrite Hl, addTokens_withRunes.
  match goal with
  | |- context [forRange (body str) (combine (seq ?n (length s)) (map byteZ s)) ?st] =>
      change (forRange (body str) (combine (seq n (length s)) (map byteZ s)) st)
        with (feed str n s st)
  end.
  pose proof Hs as Hw; unfold isWord in Hw; apply andb_true_iff in Hw.
  rewrite (feed_plain_withRunes str _ s _ _ (proj2 Hw)); cbn [bind].
  unfold lastToken; cbn [withRunes token argv mode app].
  rewrite !string_of_runes_app, (string_of_runes_ascii p (isWord_ascii p Hp)),
    (string_of_runes_ascii s (isWord_ascii s Hs)), <- app_assoc.
  reflexivity.
Qed.

Lemma tokens_utf8_text_witness :
  tokens (lit "a" ++ string_of_runes [233; 8364; 128512] ++ lit "z")
  = Ok [lit "a" ++ string_of_runes [233; 8364; 128512] ++ lit "z"].
Proof.
  apply tokens_utf8_text; vm_compute; reflexivity.
Defined.

(** ** Bytes that are not UTF-8 *)

Lemma Decode_neverLead b rest :
  neverLead b = true ->
  utf8.DecodeRuneInString (b :: rest) = (utf8.RuneError, 1%nat).
Proof.
  unfold neverLead, utf8.DecodeRuneInString, utf8.between, utf8.RuneSelf.
  intros H; tests_to_Z.
  split_ifs; tests_to_Z; try reflexivity; exfalso; lia.
Qed.

(** X13: a byte that is not UTF-8 does not survive.  Inside a word that
    begins and ends with plain ASCII characters, a byte that can start no
    UTF-8 sequence comes out as the three bytes of U+FFFD, the replacement
    character. *)
Theorem tokens_invalid_byte (p s : gostring) (b : ascii) :
  isWord p = true -> neverLead b = true -> isWord s = true ->
  tokens (p ++ [b] ++ s)
  = Ok [p ++ [byte_of 239; byte_of 191; byte_of 189] ++ s].
Proof.
  intros Hp Hb Hs; set (str := p ++ [b] ++ s).
  assert (strings.TrimSpace str = str) as Htrim.
  { apply TrimSpace_plainEnds.
    destruct (isWord_ends p Hp) as (a & t & _ & _ & Ha & _ & Hpa & _).
    destruct (isWord_ends s Hs) as (_ & _ & u & z & _ & Hz & _ & Hpz).
    apply (plainEnds_intro str a (t ++ [b] ++ s) (p ++ [b] ++ u) z).
    - unfold str; rewrite Ha; reflexivity.
    - unfold str; rewrite Hz, <- !app_assoc; reflexivity.
    - apply isPlain_asciiPlain; exact Hpa.
    - apply isPlain_asciiPlain; exact Hpz. }
  unfold tokens, scan; rewrite Htrim; unfold rangeString, str at 2.
  rewrite (rangeFrom_ascii_app p _ 0 (isWord_ascii p Hp)).
  cbn [app rangeFrom]; rewrite (Decode_neverLead b s Hb); cbn [Nat.sub].
  rewrite (rangeFrom_isASCII s _ (isWord_ascii s Hs)).
  rewrite forRange_app.
  change (forRange (body str) (combine (seq 0 (length p)) (map byteZ p)) init)
    with (feed str 0 p (mode false false [])).
  rewrite (feed_word str 0 p [] Hp); cbn [bind forRange].
  rewrite (body_scalar str _ utf8.RuneError) by reflexivity; cbn [bind].
  rewrite addToken_withRunes; cbn [runes withRunes token].
  match goal with
  | |- context [forRange (body str) (combine (seq ?n (length s)) (map byteZ s)) ?st] =>
      change (forRange (body str) (combine (seq n (length s)) (map byteZ s)) st)
        with (feed str n s (withRunes (map byteZ p ++ [utf8.RuneError])
                              (mode false false [])))
  end.
  pose proof Hs as Hw; unfold isWord in Hw; apply andb_true_iff in Hw.
  rewrite (feed_plain_withRunes str _ s _ _ (proj2 Hw)); cbn [bind].
  unfold lastToken; cbn [withRunes token argv mode app].
  rewrite !string_of_runes_app, (string_of_runes_ascii p (isWord_ascii p Hp)),
    (string_of_runes_ascii s (isWord_ascii s Hs)), <- app_assoc.
  reflexivity.
Qed.

Lemma tokens_invalid_byte_witness :
  tokens (lit "a" ++ [byte_of 255] ++ lit "z")
  = Ok [lit "a" ++ [byte_of 239; byte_of 191; byte_of 189] ++ lit "z"].
Proof.
  apply tokens_invalid_byte; vm_compute; reflexivity.
Defined.

(** ** A trailing escaped space *)

(** X14: an escaped space at the very end of the command line is lost.
    The input is trimmed before it is scanned, so for a plain word [p] the
    command line [p], backslash, space is the single token [p]: the space
    goes with the trimming and the backslash is then dropped. *)
Theorem tokens_trailing_escaped_space (p : gostring) :
  isWord p = true ->
  tokens (p ++ [bBackslash; bSpace]) = Ok [p].
Proof.
  intros Hp.
  pose proof Hp as Hw; unfold isWord in Hw; apply andb_true_iff in Hw.
  destruct Hw as [_ Hpl].
  assert (strings.TrimSpace (p ++ [bBackslash; bSpace]) = p ++ [bBackslash])
    as Htrim.
  { pose proof (TrimSpace_around [] (p ++ [bBackslash]) [bSpace]) as H.
    cbn [app] in H; rewrite <- app_assoc in H; apply H.
    - apply Forall_nil.
    - apply Forall_cons; [split; reflexivity | apply Forall_nil].
    - destruct (isWord_ends p Hp) as (a & t & _ & _ & Ha & _ & Hpa & _).
      apply (plainEnds_intro _ a (t ++ [bBackslash]) p bBackslash).
      + rewrite Ha; reflexivity.
      + reflexivity.
      + apply isPlain_asciiPlain; exact Hpa.
      + split; reflexivity. }
  unfold tokens; rewrite Htrim, scan_snoc_backslash.
  rewrite (rangeString_ascii p (isWord_ascii p Hp)).
  change (forRange (body (p ++ [bBackslash]))
            (combine (seq 0 (length p)) (map byteZ p)) init)
    with (feed (p ++ [bBackslash]) 0 p (mode false false [])).
  rewrite (feed_word _ 0 p [] Hp); cbn [bind].
  change (body ?str ?n backslash (withRunes ?t (mode false false [])))
    with (Ok (set_escaped true (withRunes t (mode false false [])))).
  cbn [bind]; unfold lastToken; cbn [set_escaped withRunes token argv mode app].
  rewrite (string_of_runes_ascii p (isWord_ascii p Hp)); reflexivity.
Qed.

Lemma tokens_trailing_escaped_space_witness :
  tokens (lit "ls" ++ [bBackslash; bSpace]) = Ok [lit "ls"].
Proof.
  apply tokens_trailing_escaped_space; vm_compute; reflexivity.
Defined.

(** ** Escapes inside double quotes *)

(** The backslash round inside double quotes and the round after it. *)
Lemma body_dquote_backslash str pos t a x :
  nth_error str (pos + 1) = Some x ->
  (st <- body str pos backslash (withRunes t (mode false true a)) ;;
   body str (S pos) (byteZ x) st)
  = Ok (withRunes (t ++ map byteZ (dquoteEscape x)) (mode false true a)).
Proof.
  intros Hn.
  assert ((pos <? length str)%nat = true) as Hlt.
  { apply Nat.ltb_lt.
    assert (pos + 1 < length str)%nat by (apply nth_error_Some; congruence).
    lia. }
  unfold body at 1, dquoteEscape.
  cbn [withRunes mode escaped inQuotes inDbl negb andb set_escaped].
  change (backslash =? backslash) with true; cbn iota.
  rewrite Hlt, Hn.
  destruct (byteZ x =? dquote) eqn:Ed; [|destruct (byteZ x =? backslash) eqn:Eb];
    cbn [bind orb map].
  - rewrite body_escaped by reflexivity; reflexivity.
  - rewrite body_escaped by reflexivity; reflexivity.
  - rewrite body_in_dquotes by (reflexivity || assumption).
    rewrite !addToken_withRunes; cbn [runes token withRunes].
    rewrite <- app_assoc; reflexivity.
Qed.

Lemma feed_cons2 str p b1 b2 s st :
  feed str p (b1 :: b2 :: s) st =
  (st2 <- (st1 <- body str p (byteZ b1) st ;; body str (S p) (byteZ b2) st1) ;;
   feed str (S (S p)) s st2).
Proof.
  rewrite !feed_cons; destruct (body str p (byteZ b1) st); reflexivity.
Qed.

Lemma dquoteEscape_ascii x :
  isASCII x = true -> forallb isASCII (dquoteEscape x) = true.
Proof.
  intros Hx; unfold dquoteEscape.
  destruct ((byteZ x =? dquote) || (byteZ x =? backslash)); cbn [forallb];
    rewrite Hx; reflexivity.
Qed.

(** X15: the escapes inside double quotes.  A backslash before a double
    quote or before a backslash is dropped and the character after it is
    kept; before any other ASCII character both are kept.  For plain [p]
    and [s] and ASCII texts [c1] and [c2] without double quote and
    backslash, the command line [p], double quote, [c1], backslash, [x],
    [c2], double quote, [s] is the single token made of [p], [c1], the
    escape's result, [c2] and [s]. *)
Theorem tokens_dquote_escape (p c1 c2 s : gostring) (x : ascii) :
  forallb isPlain p = true -> forallb inDquotes c1 = true ->
  isASCII x = true -> forallb inDquotes c2 = true ->
  forallb isPlain s = true ->
  tokens (p ++ [bDquote] ++ (c1 ++ [bBackslash; x] ++ c2) ++ [bDquote] ++ s)
  = Ok [p ++ c1 ++ dquoteEscape x ++ c2 ++ s].
Proof.
  intros Hp Hc1 Hx Hc2 Hs.
  set (str := p ++ [bDquote] ++ (c1 ++ [bBackslash; x] ++ c2) ++ [bDquote] ++ s).
  assert (strings.TrimSpace str = str) as Htrim.
  { apply TrimSpace_plainEnds, plainEnds_wrapped; auto; split; reflexivity. }
  assert (forallb isASCII str = true) as Hascii.
  { unfold str; rewrite !forallb_app, (isPlain_ascii p Hp),
      (isPlain_ascii s Hs), (inDquotes_ascii c1 Hc1), (inDquotes_ascii c2 Hc2).
    cbn [forallb]; rewrite Hx; reflexivity. }
  assert (forall n, n = (length p + 1 + length c1)%nat ->
                    nth_error str (n + 1) = Some x) as Hnext.
  { intros n ->; unfold str.
    rewrite nth_error_app2 by lia.
    replace (length p + 1 + length c1 + 1 - length p)%nat
      with (S (length c1 + 1)) by lia.
    cbn [app nth_error]; rewrite <- app_assoc, nth_error_app2 by lia.
    replace (length c1 + 1 - length c1)%nat with 1%nat by lia.
    reflexivity. }
  unfold tokens; rewrite Htrim, (scan_ascii str Hascii); unfold str at 2.
  change init with (mode false false []); rewrite feed_app.
  destruct (feed_plain_mode str 0 p [] Hp)
    as (st & -> & Hmk & He & Hq & Hd & _); cbn [bind].
  rewrite feed_app; cbn [feed length map seq combine forRange].
  assert (body str (0 + length p) (byteZ bDquote) st =
          Ok (withRunes (map byteZ p) (mode false true []))) as ->.
  { change (byteZ bDquote) with dquote; unfold body.
    rewrite He; cbn [negb andb]; change (dquote =? backslash) with false.
    change (dquote =? dquote) with true.
    cbn iota; rewrite Hmk; reflexivity. }
  cbn [bind]; rewrite feed_app, feed_app.
  rewrite (feed_in_dquotes str _ c1 _ [] Hc1); cbn [bind].
  cbn [app]; rewrite feed_cons2; change (byteZ bBackslash) with backslash.
  rewrite body_dquote_backslash by (apply Hnext; cbn [length]; lia).
  cbn [bind].
  rewrite (feed_in_dquotes str _ c2 _ [] Hc2); cbn [bind].
  rewrite feed_cons.
  change (body str ?n (byteZ bDquote) (withRunes ?t (mode false true [])))
    with (Ok (withRunes t (mode false false []))).
  cbn [bind].
  rewrite (feed_plain_withRunes str _ s _ _ Hs); cbn [bind].
  unfold lastToken; cbn [withRunes token argv mode app].
  rewrite <- !map_app, string_of_runes_ascii, <- !app_assoc; [reflexivity|].
  rewrite !forallb_app, (isPlain_ascii p Hp), (isPlain_ascii s Hs),
    (inDquotes_ascii c1 Hc1), (inDquotes_ascii c2 Hc2),
    (dquoteEscape_ascii x Hx); reflexivity.
Qed.

Lemma tokens_dquote_escape_witness :
  tokens (lit "x=" ++ [bDquote] ++ (lit "a " ++ [bBackslash; bDquote] ++ lit "b")
          ++ [bDquote] ++ lit "")
  = Ok [lit "x=" ++ lit "a " ++ [bDquote] ++ lit "b" ++ lit ""]
  /\ tokens (lit "" ++ [bDquote] ++ (lit "a" ++ [bBackslash; "n"%char] ++ lit "")
             ++ [bDquote] ++ lit "")
     = Ok [lit "" ++ lit "a" ++ [bBackslash; "n"%char] ++ lit "" ++ lit ""].
Proof.
  split.
  - apply (tokens_dquote_escape (lit "x=") (lit "a ") (lit "b") (lit "") bDquote);
      vm_compute; reflexivity.
  - apply (tokens_dquote_escape (lit "") (lit "a") (lit "") (lit "") "n"%char);
      vm_compute; reflexivity.
Defined.

(** ** White space beyond ASCII *)

Lemma IsSpace_whiteSpace r : unicode.IsSpace r = true <-> In r whiteSpace.
Proof.
  unfold unicode.IsSpace, utf8.between, whiteSpace; cbn [In].
  rewrite !orb_true_iff, !andb_true_iff, !Z.eqb_eq, !Z.leb_le; lia.
Qed.

Lemma isWhite_IsSpace r : isWhite r = unicode.IsSpace r.
Proof.
  apply eq_true_iff_eq; rewrite IsSpace_whiteSpace.
  unfold isWhite; rewrite existsb_exists; split.
  - intros (x & Hx & E); apply Z.eqb_eq in E; subst; exact Hx.
  - intros H; exists r; split; [exact H | apply Z.eqb_refl].
Qed.

Lemma isWhite_encodable r : isWhite r = true -> isEncodable r = true.
Proof.
  unfold isWhite; rewrite existsb_exists; intros (x & Hx & E).
  apply Z.eqb_eq in E; subst x; revert r Hx.
  apply Forall_forall; unfold whiteSpace.
  repeat (apply Forall_cons; [reflexivity|]); apply Forall_nil.
Qed.

(** A byte that can start a rune: not a continuation byte. *)
Lemma RuneStart_spec b :
  utf8.RuneStart b = negb (utf8.between 128 191 (byteZ b)).
Proof.
  destruct b as [[] [] [] [] [] [] [] []]; reflexivity.
Qed.

Lemma RuneStart_no_cont b x0 :
  utf8.RuneStart b = true ->
  utf8.second_ok x0 b = false /\ utf8.cont b = false.
Proof.
  rewrite RuneStart_spec, negb_true_iff.
  unfold utf8.second_ok, utf8.cont, utf8.between; intros H.
  split; [|exact H].
  split_ifs; apply andb_false_iff; rewrite !Z.leb_gt; tests_to_Z; lia.
Qed.


(** Bytes that begin with a rune boundary never complete the rune before
    them. *)
Lemma Decode_app_start t u :
  t <> [] -> startsRune u ->
  utf8.DecodeRuneInString (t ++ u) = utf8.DecodeRuneInString t.
Proof.
  intros Ht Hu; destruct u as [|c u]; [rewrite app_nil_r; reflexivity|].
  cbn [startsRune] in Hu.
  assert (forall x0, utf8.second_ok x0 c = false) as Hs
    by (intros x0; exact (proj1 (RuneStart_no_cont c x0 Hu))).
  pose proof (proj2 (RuneStart_no_cont c 0 Hu)) as Hc.
  destruct t as [|b0 [|b1 [|b2 [|b3 t]]]]; [congruence| | | |];
    unfold utf8.DecodeRuneInString; cbn [app];
    destruct u as [|c1 [|c2 u]];
    rewrite ?Hs, ?Hc, ?andb_false_r; cbn [andb];
    split_ifs; reflexivity.
Qed.

Lemma isEncodable_cases r :
  isEncodable r = true ->
  (0 <= r <= 127) \/ isScalar r = true.
Proof.
  unfold isEncodable, utf8.between; intros H; tests_to_Z.
  destruct H as [H|H]; tests_to_Z; auto.
Qed.

Lemma Encode_ascii r :
  0 <= r <= 127 ->
  utf8.EncodeRune r = [byte_of r] /\ byteZ (byte_of r) = r.
Proof.
  intros Hr; unfold utf8.EncodeRune, utf8.between.
  replace (0 <=? r) with true by (symmetry; apply Z.leb_le; lia).
  replace (r <=? 127) with true by (symmetry; apply Z.leb_le; lia).
  split; [reflexivity | apply byteZ_byte_of; lia].
Qed.

(** What [EncodeRune] writes begins with a byte that starts a rune, and
    decodes to the rune, whatever follows. *)
Lemma Encode_shape r :
  isEncodable r = true ->
  exists b tl,
    utf8.EncodeRune r = b :: tl /\ utf8.RuneStart b = true
    /\ Forall (fun c => utf8.RuneStart c = false) tl
    /\ (length tl <= 3)%nat
    /\ (tl <> [] -> utf8.RuneSelf <= byteZ (last tl b))
    /\ (tl = [] -> byteZ b < utf8.RuneSelf).
Proof.
  intros H; apply isEncodable_cases in H; destruct H as [H|H].
  - destruct (Encode_ascii r H) as [-> Hb]; exists (byte_of r), [].
    rewrite RuneStart_spec, Hb; unfold utf8.between.
    split; [reflexivity|]; split; [|split; [constructor|split; [|split]]].
    + apply negb_true_iff, andb_false_iff; rewrite !Z.leb_gt; lia.
    + cbn; lia.
    + congruence.
    + intros _; unfold utf8.RuneSelf; lia.
  - apply isScalar_spec in H; destruct H as [Hr Hs].
    assert (forall c x, byteZ c = 128 + x mod 64 ->
              utf8.RuneStart c = false /\ utf8.RuneSelf <= byteZ c) as Hcont.
    { intros c x E; rewrite RuneStart_spec, E; unfold utf8.between, utf8.RuneSelf.
      pose proof (Z.mod_pos_bound x 64 ltac:(lia)).
      split; [|lia].
      apply negb_false_iff, andb_true_iff; rewrite !Z.leb_le; lia. }
    assert (forall c q, byteZ c = q -> 192 <= q ->
              utf8.RuneStart c = true) as Hlead.
    { intros c q E Hq; rewrite RuneStart_spec, E; unfold utf8.between.
      apply negb_true_iff, andb_false_iff; rewrite !Z.leb_gt; lia. }
    destruct (Z_le_gt_dec r 2047) as [H2|H2];
      [|destruct (Z_le_gt_dec r 65535) as [H3|H3]].
    + destruct (Encode2 r) as (b0 & b1 & -> & E0 & E1); [lia|].
      exists b0, [b1]; repeat split.
      * apply (Hlead b0 _ E0); Z.div_mod_to_equations; lia.
      * repeat constructor; apply (Hcont b1 r E1).
      * cbn; lia.
      * intros _; cbn [last]; apply (Hcont b1 r E1).
      * discriminate.
    + destruct (Encode3 r) as (b0 & b1 & b2 & -> & E0 & E1 & E2); [lia|exact Hs|].
      exists b0, [b1; b2]; repeat split.
      * apply (Hlead b0 _ E0); Z.div_mod_to_equations; lia.
      * repeat constructor; [apply (Hcont b1 _ E1) | apply (Hcont b2 _ E2)].
      * cbn; lia.
      * intros _; cbn [last]; apply (Hcont b2 r E2).
      * discriminate.
    + destruct (Encode4 r) as (b0 & b1 & b2 & b3 & -> & E0 & E1 & E2 & E3); [lia|].
      exists b0, [b1; b2; b3]; repeat split.
      * apply (Hlead b0 _ E0); Z.div_mod_to_equations; lia.
      * repeat constructor;
          [apply (Hcont b1 _ E1) | apply (Hcont b2 _ E2) | apply (Hcont b3 _ E3)].
      * cbn; lia.
      * intros _; cbn [last]; apply (Hcont b3 r E3).
      * discriminate.
Qed.

Lemma Decode_Encodable r rest :
  isEncodable r = true ->
  utf8.DecodeRuneInString (utf8.EncodeRune r ++ rest) =
  (r, length (utf8.EncodeRune r)).
Proof.
  intros H; destruct (isEncodable_cases r H) as [Hr|Hr].
  - destruct (Encode_ascii r Hr) as [-> Hb]; cbn [app length].
    rewrite Decode_ascii by (unfold utf8.RuneSelf; lia); rewrite Hb; reflexivity.
  - apply Decode_Encode; exact Hr.
Qed.

(** The backward search stops at the byte that starts the last rune. *)
Lemma lastStart_found s b tl lim :
  utf8.RuneStart b = true ->
  Forall (fun c => utf8.RuneStart c = false) tl ->
  lim <= Z.of_nat (length s) ->
  forall m n, (m < n)%nat -> (m <= length tl)%nat ->
  utf8.lastStart n (s ++ b :: tl) (Z.of_nat (length s + m)) lim
  = Z.of_nat (length s).
Proof.
  intros Hb Htl Hlim; induction m as [|m IH]; intros n Hn Hm;
    (destruct n as [|n]; [lia|]); cbn [utf8.lastStart].
  - rewrite Nat.add_0_r.
    replace (Z.of_nat (length s) <? lim) with false
      by (symmetry; apply Z.ltb_ge; lia).
    rewrite Nat2Z.id, nth_error_app2, Nat.sub_diag by lia; cbn [nth_error].
    rewrite Hb; reflexivity.
  - replace (Z.of_nat (length s + S m) <? lim) with false
      by (symmetry; apply Z.ltb_ge; lia).
    rewrite Nat2Z.id, nth_error_app2 by lia.
    replace (length s + S m - length s)%nat with (S m) by lia; cbn [nth_error].
    destruct (nth_error tl m) as [c|] eqn:Ec.
    2:{ apply nth_error_None in Ec; lia. }
    rewrite (proj1 (Forall_forall _ tl) Htl c (nth_error_In _ _ Ec)).
    replace (Z.of_nat (length s + S m) - 1) with (Z.of_nat (length s + m)) by lia.
    apply IH; lia.
Qed.

Lemma nth_error_last (l : gostring) d :
  l <> [] -> nth_error l (length l - 1) = Some (last l d).
Proof.
  induction l as [|x l IH]; [congruence|]; intros _.
  destruct l as [|y l]; [reflexivity|].
  change (last (x :: y :: l) d) with (last (y :: l) d).
  rewrite <- IH by discriminate; cbn [length].
  replace (S (S (length l)) - 1)%nat with (S (S (length l) - 1)) by lia.
  reflexivity.
Qed.

(** The last rune of a string that ends with an encoded rune is that
    rune. *)
Lemma DecodeLast_Encode s r :
  isEncodable r = true ->
  utf8.DecodeLastRuneInString (s ++ utf8.EncodeRune r) =
  (r, length (utf8.EncodeRune r)).
Proof.
  intros H; pose proof (Decode_Encodable r [] H) as Hd.
  rewrite app_nil_r in Hd.
  destruct (Encode_shape r H) as (b & tl & E & Hb & Htl & Hlen & Hlast & Hasc).
  rewrite E in *; destruct tl as [|c tl'].
  - cbn [length] in *.
    assert (byteZ b < utf8.RuneSelf) as Hlt by (apply Hasc; reflexivity).
    rewrite DecodeLast_snoc_ascii by exact Hlt.
    rewrite Decode_ascii in Hd by exact Hlt; injection Hd as ->; reflexivity.
  - set (tl := c :: tl') in *.
    assert (tl <> []) as Hne by discriminate.
    specialize (Hlast Hne).
    unfold utf8.DecodeLastRuneInString.
    rewrite length_app; cbn [length]; fold (length tl).
    set (e := Z.of_nat (length s + S (length tl))).
    replace (e =? 0) with false by (symmetry; apply Z.eqb_neq; lia).
    replace (Z.to_nat (e - 1)) with (length s + length tl)%nat by lia.
    rewrite nth_error_app2 by lia.
    replace (length s + length tl - length s)%nat with (S (length tl - 1))
      by (subst tl; cbn [length]; lia).
    cbn [nth_error].
    assert (nth_error tl (length tl - 1) = Some (last tl b)) as Hn.
    { apply nth_error_last; exact Hne. }
    rewrite Hn.
    replace (byteZ (last tl b) <? utf8.RuneSelf) with false
      by (symmetry; apply Z.ltb_ge; exact Hlast).
    replace (e - 2) with (Z.of_nat (length s + (length tl - 1)))
      by (subst e tl; cbn [length]; lia).
    rewrite (lastStart_found s b tl) by
      (assumption || (subst e tl; cbn [length] in *; lia)).
    replace (Z.of_nat (length s) <? 0) with false
      by (symmetry; apply Z.ltb_ge; lia).
    rewrite Nat2Z.id, skipn_app, skipn_all, Nat.sub_diag; cbn [skipn app].
    replace (Z.to_nat (e - Z.of_nat (length s))) with (length (b :: tl))
      by (subst e; cbn [length]; lia).
    rewrite firstn_all, Hd.
    replace (Z.of_nat (length s) + Z.of_nat (length (b :: tl)) =? e) with true
      by (symmetry; apply Z.eqb_eq; subst e; cbn [length]; lia).
    reflexivity.
Qed.

(** *** Encoding what was decoded *)

Lemma isScalar_intro r :
  128 <= r <= 1114111 -> ~ (55296 <= r <= 57343) -> isScalar r = true.
Proof.
  intros Hr Hs; unfold isScalar, utf8.between, utf8.RuneSelf, utf8.MaxRune.
  rewrite !andb_true_iff, negb_true_iff, andb_false_iff, !Z.leb_le, !Z.leb_gt.
  lia.
Qed.

Lemma second_ok_spec x0 b :
  utf8.second_ok x0 b = true ->
  128 <= byteZ b <= 191
  /\ (x0 = 224 -> 160 <= byteZ b) /\ (x0 = 237 -> byteZ b <= 159)
  /\ (x0 = 240 -> 144 <= byteZ b) /\ (x0 = 244 -> byteZ b <= 143).
Proof.
  unfold utf8.second_ok, utf8.between; split_ifs; intros H; tests_to_Z; lia.
Qed.

Lemma Encode_inv2 b0 b1 r :
  194 <= byteZ b0 <= 223 -> utf8.second_ok (byteZ b0) b1 = true ->
  r = Z.lor (Z.shiftl (Z.land (byteZ b0) 31) 6) (utf8.low6 b1) ->
  utf8.EncodeRune r = [b0; b1] /\ isScalar r = true.
Proof.
  intros H0 H1 Hr; apply second_ok_spec in H1; destruct H1 as (H1 & _).
  unfold utf8.low6 in Hr.
  change 31 with (2 ^ 5 - 1) in Hr; change 63 with (2 ^ 6 - 1) in Hr.
  rewrite !land_ones_const, Z.shiftl_mul_pow2 in Hr by lia.
  rewrite lor_add in Hr by (pow_consts; Z.div_mod_to_equations; lia).
  pow_consts.
  assert (128 <= r <= 2047) as Hrange by (Z.div_mod_to_equations; lia).
  destruct (Encode2 r Hrange) as (c0 & c1 & -> & E0 & E1).
  split; [|apply isScalar_intro; lia].
  f_equal; [|f_equal]; apply byteZ_inj; Z.div_mod_to_equations; lia.
Qed.

Lemma Encode_inv3 b0 b1 b2 r :
  224 <= byteZ b0 <= 239 -> utf8.second_ok (byteZ b0) b1 = true ->
  utf8.cont b2 = true ->
  r = Z.lor (Z.shiftl (Z.land (byteZ b0) 15) 12)
        (Z.lor (Z.shiftl (utf8.low6 b1) 6) (utf8.low6 b2)) ->
  utf8.EncodeRune r = [b0; b1; b2] /\ isScalar r = true.
Proof.
  intros H0 H1 H2 Hr; apply second_ok_spec in H1.
  destruct H1 as (H1 & Ha & Hb & _).
  unfold utf8.cont, utf8.between in H2; tests_to_Z.
  unfold utf8.low6 in Hr.
  change 15 with (2 ^ 4 - 1) in Hr; change 63 with (2 ^ 6 - 1) in Hr.
  rewrite !land_ones_const, !Z.shiftl_mul_pow2 in Hr by lia.
  rewrite (lor_add _ 6) in Hr by (pow_consts; Z.div_mod_to_equations; lia).
  rewrite (lor_add _ 12) in Hr by (pow_consts; Z.div_mod_to_equations; lia).
  pow_consts.
  assert (2048 <= r <= 65535 /\ ~ (55296 <= r <= 57343)) as [Hrange Hs]
    by (Z.div_mod_to_equations; lia).
  destruct (Encode3 r Hrange Hs) as (c0 & c1 & c2 & -> & E0 & E1 & E2).
  split; [|apply isScalar_intro; lia].
  f_equal; [|f_equal; [|f_equal]]; apply byteZ_inj;
    Z.div_mod_to_equations; lia.
Qed.

Lemma Encode_inv4 b0 b1 b2 b3 r :
  240 <= byteZ b0 <= 244 -> utf8.second_ok (byteZ b0) b1 = true ->
  utf8.cont b2 = true -> utf8.cont b3 = true ->
  r = Z.lor (Z.shiftl (Z.land (byteZ b0) 7) 18)
        (Z.lor (Z.shiftl (utf8.low6 b1) 12)
           (Z.lor (Z.shiftl (utf8.low6 b2) 6) (utf8.low6 b3))) ->
  utf8.EncodeRune r = [b0; b1; b2; b3] /\ isScalar r = true.
Proof.
  intros H0 H1 H2 H3 Hr; apply second_ok_spec in H1.
  destruct H1 as (H1 & _ & _ & Ha & Hb).
  unfold utf8.cont, utf8.between in H2, H3; tests_to_Z.
  unfold utf8.low6 in Hr.
  change 7 with (2 ^ 3 - 1) in Hr; change 63 with (2 ^ 6 - 1) in Hr.
  rewrite !land_ones_const, !Z.shiftl_mul_pow2 in Hr by lia.
  rewrite (lor_add _ 6) in Hr by (pow_consts; Z.div_mod_to_equations; lia).
  rewrite (lor_add _ 12) in Hr by (pow_consts; Z.div_mod_to_equations; lia).
  rewrite (lor_add _ 18) in Hr by (pow_consts; Z.div_mod_to_equations; lia).
  pow_consts.
  assert (65536 <= r <= 1114111) as Hrange by (Z.div_mod_to_equations; lia).
  destruct (Encode4 r Hrange) as (c0 & c1 & c2 & c3 & -> & E0 & E1 & E2 & E3).
  split; [|apply isScalar_intro; lia].
  f_equal; [|f_equal; [|f_equal; [|f_equal]]]; apply byteZ_inj;
    Z.div_mod_to_equations; lia.
Qed.

(** A rune that was decoded, unless it is the error rune, is encoded as the
    bytes it was decoded from. *)
Lemma Decode_inv l r w :
  utf8.DecodeRuneInString l = (r, w) -> r <> utf8.RuneError ->
  firstn w l = utf8.EncodeRune r /\ isEncodable r = true.
Proof.
  intros Hd Hne; unfold isEncodable.
  assert (forall r', isScalar r' = true ->
            utf8.between 0 127 r' || isScalar r' = true) as Hsc
    by (intros r' ->; apply orb_true_r).
  unfold utf8.DecodeRuneInString in Hd.
  destruct l as [|b0 t]; [injection Hd as <- _; congruence|].
  destruct (byteZ b0 <? utf8.RuneSelf) eqn:E0.
  { injection Hd as <- <-; apply Z.ltb_lt in E0; unfold utf8.RuneSelf in E0.
    pose proof (byteZ_range b0) as Hb.
    destruct (Encode_ascii (byteZ b0) ltac:(lia)) as [-> _].
    rewrite byte_of_byteZ; split; [reflexivity|].
    unfold utf8.between; apply orb_true_iff; left.
    apply andb_true_iff; rewrite !Z.leb_le; lia. }
  destruct (utf8.between 194 223 (byteZ b0)) eqn:E2.
  { destruct t as [|b1 t]; [injection Hd as <- _; congruence|].
    destruct (utf8.second_ok (byteZ b0) b1) eqn:S1;
      [|injection Hd as <- _; congruence].
    injection Hd as Hr <-; unfold utf8.between in E2; tests_to_Z.
    destruct (Encode_inv2 b0 b1 r ltac:(lia) S1 (eq_sym Hr)) as [-> Hs].
    split; [reflexivity | apply Hsc; exact Hs]. }
  destruct (utf8.between 224 239 (byteZ b0)) eqn:E3.
  { destruct t as [|b1 [|b2 t]]; try (injection Hd as <- _; congruence).
    destruct (utf8.second_ok (byteZ b0) b1) eqn:S1;
      [|injection Hd as <- _; congruence].
    destruct (utf8.cont b2) eqn:C2; [|injection Hd as <- _; congruence].
    cbn [andb] in Hd; injection Hd as Hr <-.
    unfold utf8.between in E3; tests_to_Z.
    destruct (Encode_inv3 b0 b1 b2 r ltac:(lia) S1 C2 (eq_sym Hr)) as [-> Hs].
    split; [reflexivity | apply Hsc; exact Hs]. }
  destruct (utf8.between 240 244 (byteZ b0)) eqn:E4.
  { destruct t as [|b1 [|b2 [|b3 t]]]; try (injection Hd as <- _; congruence).
    destruct (utf8.second_ok (byteZ b0) b1) eqn:S1;
      [|injection Hd as <- _; congruence].
    destruct (utf8.cont b2) eqn:C2; [|injection Hd as <- _; congruence].
    destruct (utf8.cont b3) eqn:C3; [|injection Hd as <- _; congruence].
    cbn [andb] in Hd; injection Hd as Hr <-.
    unfold utf8.between in E4; tests_to_Z.
    destruct (Encode_inv4 b0 b1 b2 b3 r ltac:(lia) S1 C2 C3 (eq_sym Hr))
      as [-> Hs].
    split; [reflexivity | apply Hsc; exact Hs]. }
  injection Hd as <- _; congruence.
Qed.

(** *** The last rune, case by case *)

Lemma DecodeLast_cases l r size :
  l <> [] -> utf8.DecodeLastRuneInString l = (r, size) ->
  (exists l' b, l = l' ++ [b] /\ size = 1%nat
     /\ ((byteZ b < utf8.RuneSelf /\ r = byteZ b)
         \/ (utf8.RuneSelf <= byteZ b /\ r = utf8.RuneError)))
  \/ (exists l' sl, l = l' ++ sl /\ length sl = size /\ (1 <= size)%nat
        /\ utf8.DecodeRuneInString sl = (r, size)).
Proof.
  intros Hne; unfold utf8.DecodeLastRuneInString.
  destruct (exists_last Hne) as (l0 & b & Hl).
  assert (length l = S (length l0)) as Hlen
    by (rewrite Hl, length_app; cbn [length]; lia).
  replace (Z.of_nat (length l) =? 0) with false
    by (symmetry; apply Z.eqb_neq; lia).
  replace (Z.to_nat (Z.of_nat (length l) - 1)) with (length l0) by lia.
  rewrite Hl at 1; rewrite nth_error_app2, Nat.sub_diag by lia; cbn [nth_error].
  destruct (byteZ b <? utf8.RuneSelf) eqn:Eb.
  { intros [= <- <-]; left; exists l0, b; apply Z.ltb_lt in Eb; auto. }
  apply Z.ltb_ge in Eb.
  set (lim := Z.max _ 0).
  pose proof (lastStart_le 4 l lim (Z.of_nat (length l) - 2)) as Hle.
  set (start0 := utf8.lastStart 4 l _ lim) in *.
  set (start := if start0 <? 0 then 0 else start0).
  assert (0 <= start <= Z.of_nat (length l) - 1) as Hstart.
  { subst start; destruct (start0 <? 0) eqn:E; [lia|]; apply Z.ltb_ge in E; lia. }
  rewrite firstn_all2 by (rewrite length_skipn; lia).
  destruct (utf8.DecodeRuneInString (skipn (Z.to_nat start) l))
    as [r' size'] eqn:Ed.
  destruct (start + Z.of_nat size' =? Z.of_nat (length l)) eqn:E.
  - apply Z.eqb_eq in E; intros [= <- <-]; right.
    exists (firstn (Z.to_nat start) l), (skipn (Z.to_nat start) l).
    rewrite firstn_skipn, length_skipn; repeat split; auto; lia.
  - intros [= <- <-]; left; exists l0, b; auto.
Qed.

(** A last rune other than the error rune is encoded at the end of the
    string. *)
Lemma DecodeLast_inv l r size :
  l <> [] -> utf8.DecodeLastRuneInString l = (r, size) ->
  r <> utf8.RuneError ->
  exists l', l = l' ++ utf8.EncodeRune r.
Proof.
  intros Hne Hd Hr; apply DecodeLast_cases in Hd; [|exact Hne].
  destruct Hd as [(l' & b & -> & _ & [[Hb ->]|[_ ->]])|(l' & sl & -> & Hlen & _ & Hd)].
  - exists l'; pose proof (byteZ_range b) as Hrange.
    unfold utf8.RuneSelf in Hb.
    destruct (Encode_ascii (byteZ b) ltac:(lia)) as [-> _].
    rewrite byte_of_byteZ; reflexivity.
  - congruence.
  - exists l'; apply Decode_inv in Hd; [|exact Hr].
    destruct Hd as [<- _]; rewrite <- Hlen, firstn_all; reflexivity.
Qed.

(** From the start of the last rune, the forward decoder reaches the end of
    the string: the index that [TrimRightFunc] computes when nothing is
    trimmed. *)
Lemma DecodeLast_adjust l r size :
  l <> [] -> utf8.DecodeLastRuneInString l = (r, size) ->
  (1 <= size <= length l)%nat
  /\ exists b, nth_error l (length l - size) = Some b
       /\ (if utf8.RuneSelf <=? byteZ b
           then (length l - size
                 + snd (utf8.DecodeRuneInString (skipn (length l - size) l)))%nat
           else (length l - size + 1)%nat) = length l.
Proof.
  intros Hne Hd; pose proof (DecodeLast_width l r size Hne Hd) as Hw.
  split; [exact Hw|].
  apply DecodeLast_cases in Hd; [|exact Hne].
  destruct Hd as [(l' & b & -> & -> & _)|(l' & sl & -> & Hlen & Hsz & Hd)].
  - exists b; rewrite length_app; cbn [length].
    replace (length l' + 1 - 1)%nat with (length l') by lia.
    rewrite nth_error_app2, Nat.sub_diag, skipn_app, skipn_all, Nat.sub_diag by lia.
    cbn [nth_error skipn app]; split; [reflexivity|].
    rewrite Decode_single; cbn [snd]; destruct (utf8.RuneSelf <=? byteZ b); lia.
  - destruct sl as [|b sl]; [cbn [length] in Hlen; lia|].
    exists b; rewrite length_app, <- Hlen.
    replace (length l' + length (b :: sl) - length (b :: sl))%nat
      with (length l') by lia.
    rewrite nth_error_app2, Nat.sub_diag, skipn_app, skipn_all, Nat.sub_diag by lia.
    cbn [nth_error skipn app]; split; [reflexivity|].
    rewrite Hd; cbn [snd].
    destruct (utf8.RuneSelf <=? byteZ b) eqn:Eb; [lia|].
    apply Z.leb_gt in Eb; rewrite Decode_ascii in Hd by exact Eb.
    injection Hd as _ Hs; lia.
Qed.

(** *** Trimming encoded white space *)

Lemma HasPrefix_spec s p :
  strings.HasPrefix s p = true <-> exists rest, s = p ++ rest.
Proof.
  revert s; induction p as [|c p IH]; intros s.
  - rewrite HasPrefix_nil; split; [exists s; reflexivity | reflexivity].
  - destruct s as [|x s]; cbn [strings.HasPrefix app].
    + split; [discriminate | intros (rest & H); discriminate H].
    + rewrite andb_true_iff, Ascii.eqb_eq, IH; split.
      * intros (-> & rest & ->); exists rest; reflexivity.
      * intros (rest & [= -> ->]); split; [reflexivity | exists rest; reflexivity].
Qed.

Lemma beginsWithWhite_false s r rest :
  beginsWithWhite s = false -> isWhite r = true ->
  s <> utf8.EncodeRune r ++ rest.
Proof.
  unfold beginsWithWhite, isWhite; intros Hb Hr Hs.
  apply existsb_exists in Hr; destruct Hr as (x & Hx & E).
  apply Z.eqb_eq in E; subst x.
  assert (existsb (fun r => strings.HasPrefix s (utf8.EncodeRune r)) whiteSpace
          = true) as Ht; [|congruence].
  apply existsb_exists; exists r; split; [exact Hx|].
  apply HasPrefix_spec; exists rest; exact Hs.
Qed.

Lemma endsWithWhite_false s r l' :
  endsWithWhite s = false -> isWhite r = true ->
  s <> l' ++ utf8.EncodeRune r.
Proof.
  unfold endsWithWhite, isWhite; intros Hb Hr Hs.
  apply existsb_exists in Hr; destruct Hr as (x & Hx & E).
  apply Z.eqb_eq in E; subst x.
  assert (existsb (fun r => strings.HasPrefix (rev s) (rev (utf8.EncodeRune r)))
            whiteSpace = true) as Ht; [|congruence].
  apply existsb_exists; exists r; split; [exact Hx|].
  apply HasPrefix_spec; exists (rev l'); rewrite Hs, rev_app_distr; reflexivity.
Qed.

Lemma startsRune_Encode r rest :
  isEncodable r = true -> startsRune (utf8.EncodeRune r ++ rest).
Proof.
  intros H; destruct (Encode_shape r H) as (b & tl & -> & Hb & _).
  exact Hb.
Qed.

Lemma startsRune_white rs :
  forallb isWhite rs = true -> startsRune (string_of_runes rs).
Proof.
  destruct rs as [|r rs]; [exact (fun _ => I)|]; cbn [forallb]; intros H.
  apply andb_true_iff in H; destruct H as [Hr _].
  apply startsRune_Encode, isWhite_encodable; exact Hr.
Qed.

Lemma rangeFrom_Encodable r rest pos :
  isEncodable r = true ->
  rangeFrom pos 0 (utf8.EncodeRune r ++ rest) =
  (pos, r) :: rangeFrom (pos + length (utf8.EncodeRune r)) 0 rest.
Proof.
  intros H; pose proof (Decode_Encodable r rest H) as Hd.
  destruct (Encode_shape r H) as (b & tl & E & _).
  rewrite E in *; cbn [app rangeFrom]; cbn [app] in Hd; rewrite Hd.
  cbn [length Nat.sub]; rewrite Nat.sub_0_r, rangeFrom_skip, Nat.add_succ_r.
  reflexivity.
Qed.

(** A leading encoded white space character is dropped. *)
Lemma TrimLeftFunc_white r s :
  isWhite r = true ->
  strings.TrimLeftFunc (utf8.EncodeRune r ++ s) unicode.IsSpace =
  strings.TrimLeftFunc s unicode.IsSpace.
Proof.
  intros Hr; unfold strings.TrimLeftFunc, strings.indexFunc, rangeString.
  rewrite (rangeFrom_Encodable r s 0 (isWhite_encodable r Hr)).
  cbn [find snd]; rewrite <- isWhite_IsSpace, Hr; cbn [Bool.eqb].
  cbn [Nat.add].
  rewrite <- (Nat.add_0_r (length (utf8.EncodeRune r))) at 1.
  rewrite (rangeFrom_shift (length (utf8.EncodeRune r)) s 0 0).
  induction (rangeFrom 0 0 s) as [|[p x] l IH]; cbn [map find fst snd].
  - reflexivity.
  - destruct (Bool.eqb (unicode.IsSpace x) false); [|exact IH].
    cbn [option_map fst]; rewrite skipn_app, skipn_all2 by lia.
    replace (length (utf8.EncodeRune r) + p - length (utf8.EncodeRune r))%nat
      with p by lia.
    reflexivity.
Qed.

Lemma TrimLeftFunc_whites rs s :
  forallb isWhite rs = true ->
  strings.TrimLeftFunc (string_of_runes rs ++ s) unicode.IsSpace =
  strings.TrimLeftFunc s unicode.IsSpace.
Proof.
  unfold string_of_runes; induction rs as [|r rs IH]; cbn [forallb flat_map app];
    [reflexivity|].
  intros H; apply andb_true_iff in H; destruct H as [Hr Hrs].
  rewrite <- app_assoc, (TrimLeftFunc_white r _ Hr); exact (IH Hrs).
Qed.

(** Trimming stops at a string that does not begin with encoded white
    space. *)
Lemma TrimLeftFunc_stop s u :
  s <> [] -> beginsWithWhite s = false -> startsRune u ->
  strings.TrimLeftFunc (s ++ u) unicode.IsSpace = s ++ u.
Proof.
  intros Hne Hb Hu; unfold strings.TrimLeftFunc, strings.indexFunc, rangeString.
  destruct s as [|b0 t]; [congruence|]; cbn [app rangeFrom].
  change (b0 :: t ++ u) with ((b0 :: t) ++ u).
  rewrite (Decode_app_start (b0 :: t) u Hne Hu).
  destruct (utf8.DecodeRuneInString (b0 :: t)) as [r w] eqn:Ed.
  cbn [find snd].
  destruct (unicode.IsSpace r) eqn:Er; [|reflexivity].
  exfalso.
  assert (r <> utf8.RuneError) as Hr by (intros ->; discriminate Er).
  destruct (Decode_inv _ _ _ Ed Hr) as [He _].
  apply (beginsWithWhite_false (b0 :: t) r (skipn w (b0 :: t)) Hb).
  - rewrite isWhite_IsSpace; exact Er.
  - rewrite <- He; symmetry; apply firstn_skipn.
Qed.

Lemma lastIndexLoop_fuel s f truth :
  forall fuel fuel' i,
  (i <= length s)%nat -> (i <= fuel)%nat -> (i <= fuel')%nat ->
  strings.lastIndexLoop fuel i s f truth =
  strings.lastIndexLoop fuel' i s f truth.
Proof.
  induction fuel as [|fuel IH]; intros fuel' i Hi Hf Hf'.
  - assert (i = 0)%nat as -> by lia; destruct fuel'; reflexivity.
  - destruct fuel' as [|fuel']; cbn [strings.lastIndexLoop].
    + assert (i = 0)%nat as -> by lia; reflexivity.
    + destruct (i =? 0)%nat eqn:E0; [reflexivity|]; apply Nat.eqb_neq in E0.
      destruct (utf8.DecodeLastRuneInString (firstn i s)) as [r size] eqn:Ed.
      apply DecodeLast_width in Ed.
      2:{ intros Hnil; apply (f_equal (@length _)) in Hnil.
          rewrite length_firstn in Hnil; cbn in Hnil; lia. }
      destruct (Bool.eqb (f r) truth); [reflexivity|].
      apply IH; lia.
Qed.

(** A trailing encoded white space character is dropped. *)
Lemma TrimRightFunc_white s r :
  isWhite r = true ->
  strings.TrimRightFunc (s ++ utf8.EncodeRune r) unicode.IsSpace =
  strings.TrimRightFunc s unicode.IsSpace.
Proof.
  intros Hr; pose proof (isWhite_encodable r Hr) as He.
  set (E := utf8.EncodeRune r).
  destruct (Encode_shape r He) as (b0 & tl & HE & Hb0 & _); fold E in HE.
  assert (1 <= length E)%nat as HlenE by (rewrite HE; cbn [length]; lia).
  assert (startsRune E) as HsE by (rewrite HE; exact Hb0).
  unfold strings.TrimRightFunc, strings.lastIndexFunc.
  rewrite length_app.
  replace (length s + length E)%nat with (S (length s + length E - 1)) at 1 by lia.
  cbn [strings.lastIndexLoop].
  replace (length s + length E =? 0)%nat with false
    by (symmetry; apply Nat.eqb_neq; lia).
  rewrite (@firstn_all2 _ (length s + length E) (s ++ E))
    by (rewrite length_app; lia).
  unfold E at 1; rewrite (DecodeLast_Encode s r He); fold E.
  rewrite <- isWhite_IsSpace, Hr; cbn [Bool.eqb].
  replace (length s + length E - length E)%nat with (length s) by lia.
  rewrite lastIndexLoop_app by lia.
  rewrite (lastIndexLoop_fuel s _ _ _ (length s) (length s)) by lia.
  destruct (strings.lastIndexLoop (length s) (length s) s _ false) as [i|] eqn:Ei;
    [|reflexivity].
  apply lastIndexLoop_lt in Ei; [|lia].
  rewrite nth_error_app1 by lia.
  destruct (nth_error s i) as [b|] eqn:Eb.
  2:{ apply nth_error_None in Eb; lia. }
  destruct (utf8.RuneSelf <=? byteZ b).
  - rewrite skipn_app; replace (i - length s)%nat with 0%nat by lia.
    cbn [skipn]; rewrite Decode_app_start; [|
      intros Hnil; apply (f_equal (@length _)) in Hnil;
      rewrite length_skipn in Hnil; cbn in Hnil; lia | exact HsE].
    destruct (utf8.DecodeRuneInString (skipn i s)) as [x w] eqn:Ed.
    apply Decode_width in Ed; destruct Ed as [Ed _]; rewrite length_skipn in Ed.
    cbn [snd]; rewrite firstn_app.
    replace (i + w - length s)%nat with 0%nat by lia.
    cbn [firstn]; apply app_nil_r.
  - rewrite firstn_app; replace (i + 1 - length s)%nat with 0%nat by lia.
    cbn [firstn]; apply app_nil_r.
Qed.

Lemma TrimRightFunc_whites s rs :
  forallb isWhite rs = true ->
  strings.TrimRightFunc (s ++ string_of_runes rs) unicode.IsSpace =
  strings.TrimRightFunc s unicode.IsSpace.
Proof.
  induction rs as [|r rs IH] using rev_ind; intros H.
  - rewrite app_nil_r; reflexivity.
  - rewrite forallb_app in H; cbn [forallb] in H.
    rewrite !andb_true_iff in H; destruct H as (Hrs & Hr & _).
    rewrite string_of_runes_app; unfold string_of_runes at 2.
    cbn [flat_map]; rewrite app_nil_r, app_assoc.
    rewrite TrimRightFunc_white by exact Hr; exact (IH Hrs).
Qed.

(** Trimming stops at a string that does not end with encoded white
    space. *)
Lemma TrimRightFunc_stop s :
  endsWithWhite s = false ->
  strings.TrimRightFunc s unicode.IsSpace = s.
Proof.
  intros He; destruct s as [|b0 t] eqn:Es; [reflexivity|].
  rewrite <- Es in *; assert (s <> []) as Hne by (rewrite Es; discriminate).
  clear Es b0 t.
  unfold strings.TrimRightFunc, strings.lastIndexFunc.
  assert (1 <= length s)%nat as Hlen by (destruct s; [congruence | cbn; lia]).
  replace (length s) with (S (length s - 1)) at 1 by lia.
  cbn [strings.lastIndexLoop].
  replace (length s =? 0)%nat with false by (symmetry; apply Nat.eqb_neq; lia).
  rewrite firstn_all.
  destruct (utf8.DecodeLastRuneInString s) as [r size] eqn:Ed.
  destruct (unicode.IsSpace r) eqn:Er.
  { exfalso.
    assert (r <> utf8.RuneError) as Hr by (intros ->; discriminate Er).
    destruct (DecodeLast_inv s r size Hne Ed Hr) as (l' & Hl).
    apply (endsWithWhite_false s r l' He); [|exact Hl].
    rewrite isWhite_IsSpace; exact Er. }
  cbn [Bool.eqb].
  destruct (DecodeLast_adjust s r size Hne Ed) as (_ & b & -> & Hadj).
  destruct (utf8.RuneSelf <=? byteZ b); rewrite Hadj; apply firstn_all.
Qed.

(** [TrimSpace] on a string between encoded white space. *)
Lemma TrimSpace_whites rs1 s rs2 :
  forallb isWhite rs1 = true -> forallb isWhite rs2 = true ->
  beginsWithWhite s = false -> endsWithWhite s = false ->
  strings.TrimSpace (string_of_runes rs1 ++ s ++ string_of_runes rs2) = s.
Proof.
  intros H1 H2 Hb He; unfold strings.TrimSpace, strings.TrimFunc.
  rewrite (TrimLeftFunc_whites rs1 _ H1).
  destruct s as [|b0 t] eqn:Es.
  - cbn [app]; rewrite <- (app_nil_r (string_of_runes rs2)).
    rewrite (TrimLeftFunc_whites rs2 [] H2); reflexivity.
  - rewrite <- Es in *; assert (s <> []) as Hne by (rewrite Es; discriminate).
    rewrite (TrimLeftFunc_stop s _ Hne Hb (startsRune_white rs2 H2)).
    rewrite (TrimRightFunc_whites s rs2 H2).
    apply TrimRightFunc_stop; exact He.
Qed.

(** *** Every string is white space around a core *)

Lemma isWhite_In r : In r whiteSpace -> isWhite r = true.
Proof.
  intros H; unfold isWhite; apply existsb_exists; exists r.
  split; [exact H | apply Z.eqb_refl].
Qed.

Lemma Encode_nonempty r : isEncodable r = true -> (1 <= length (utf8.EncodeRune r))%nat.
Proof.
  intros H; destruct (Encode_shape r H) as (b & tl & -> & _); cbn [length]; lia.
Qed.

Lemma strip_left n : forall s, (length s <= n)%nat ->
  exists rs body,
    s = string_of_runes rs ++ body /\ forallb isWhite rs = true
    /\ beginsWithWhite body = false.
Proof.
  induction n as [|n IH]; intros s Hlen.
  - destruct s; [|cbn in Hlen; lia]; exists [], []; repeat split.
  - destruct (beginsWithWhite s) eqn:Eb; [|exists [], s; repeat split; exact Eb].
    unfold beginsWithWhite in Eb; apply existsb_exists in Eb.
    destruct Eb as (r & Hin & Hp); apply HasPrefix_spec in Hp.
    destruct Hp as (rest & ->); pose proof (isWhite_In r Hin) as Hr.
    pose proof (Encode_nonempty r (isWhite_encodable r Hr)) as Hne.
    rewrite length_app in Hlen.
    destruct (IH rest ltac:(lia)) as (rs & body & -> & Hrs & Hb).
    exists (r :: rs), body; unfold string_of_runes; cbn [flat_map forallb].
    rewrite Hr, <- app_assoc; repeat split; auto.
Qed.

Lemma strip_right n : forall s, (length s <= n)%nat ->
  exists body rs,
    s = body ++ string_of_runes rs /\ forallb isWhite rs = true
    /\ endsWithWhite body = false.
Proof.
  induction n as [|n IH]; intros s Hlen.
  - destruct s; [|cbn in Hlen; lia]; exists [], []; repeat split.
  - destruct (endsWithWhite s) eqn:Eb.
    2:{ exists s, []; rewrite app_nil_r; repeat split; exact Eb. }
    unfold endsWithWhite in Eb; apply existsb_exists in Eb.
    destruct Eb as (r & Hin & Hp); apply HasPrefix_spec in Hp.
    destruct Hp as (rest & Hrev); pose proof (isWhite_In r Hin) as Hr.
    pose proof (Encode_nonempty r (isWhite_encodable r Hr)) as Hne.
    assert (s = rev rest ++ utf8.EncodeRune r) as ->.
    { rewrite <- (rev_involutive s), Hrev, rev_app_distr, rev_involutive.
      reflexivity. }
    rewrite length_app in Hlen.
    destruct (IH (rev rest) ltac:(lia)) as (body & rs & -> & Hrs & Hb).
    exists body, (rs ++ [r]); rewrite string_of_runes_app, forallb_app.
    unfold string_of_runes at 3; cbn [flat_map forallb].
    rewrite Hrs, Hr, app_nil_r, <- app_assoc; repeat split; auto.
Qed.

Lemma TrimSpace_decompose input :
  exists rs1 rs2,
    forallb isWhite rs1 = true /\ forallb isWhite rs2 = true
    /\ input = string_of_runes rs1 ++ strings.TrimSpace input
               ++ string_of_runes rs2
    /\ beginsWithWhite (strings.TrimSpace input) = false
    /\ endsWithWhite (strings.TrimSpace input) = false.
Proof.
  destruct (strip_left (length input) input (le_n _))
    as (rs1 & s1 & Hs & H1 & Hb).
  destruct (strip_right (length s1) s1 (le_n _)) as (body & rs2 & -> & H2 & He).
  assert (beginsWithWhite body = false) as Hb'.
  { destruct (beginsWithWhite body) eqn:E; [|reflexivity].
    unfold beginsWithWhite in E; apply existsb_exists in E.
    destruct E as (r & Hin & Hp); apply HasPrefix_spec in Hp.
    destruct Hp as (rest & ->).
    exfalso; apply (beginsWithWhite_false _ r (rest ++ string_of_runes rs2) Hb).
    - apply isWhite_In; exact Hin.
    - rewrite app_assoc; reflexivity. }
  exists rs1, rs2; subst input.
  rewrite (TrimSpace_whites rs1 body rs2 H1 H2 Hb' He); auto.
Qed.

(** C5, as the code has it: [Parse] trims the input with
    [strings.TrimSpace], that is of Unicode white space: the six ASCII
    characters tab, newline, vertical tab, form feed, carriage return and
    space, and U+0085, U+00A0, U+1680, U+2000 to U+200A, U+2028, U+2029,
    U+202F, U+205F and U+3000.  Every input is a run of such characters, the
    trimmed string, and another such run; the trimmed string neither begins
    nor ends with one of them; the scan runs over the trimmed string, so
    that a leading or trailing character of any other kind is scanned as an
    ordinary character. *)
Theorem Parse_trims_white_space :
  (forall r, unicode.IsSpace r = true <-> In r whiteSpace)
  /\ (forall b, asciiSpace b <->
        byteZ b = 9 \/ byteZ b = 10 \/ byteZ b = 11 \/ byteZ b = 12
        \/ byteZ b = 13 \/ byteZ b = 32)
  /\ (forall rs1 s rs2,
        forallb isWhite rs1 = true -> forallb isWhite rs2 = true ->
        beginsWithWhite s = false -> endsWithWhite s = false ->
        strings.TrimSpace (string_of_runes rs1 ++ s ++ string_of_runes rs2) = s
        /\ Parse (string_of_runes rs1 ++ s ++ string_of_runes rs2)
           = (st <- scan s ;; Ok (finish st)))
  /\ (forall input,
        exists rs1 rs2,
          forallb isWhite rs1 = true /\ forallb isWhite rs2 = true
          /\ input = string_of_runes rs1 ++ strings.TrimSpace input
                     ++ string_of_runes rs2
          /\ beginsWithWhite (strings.TrimSpace input) = false
          /\ endsWithWhite (strings.TrimSpace input) = false
          /\ Parse input
             = (st <- scan (strings.TrimSpace input) ;; Ok (finish st)))
  /\ (forall pre s post,
        Forall asciiSpace pre -> Forall asciiSpace post -> plainEnds s ->
        strings.TrimSpace (pre ++ s ++ post) = s
        /\ Parse (pre ++ s ++ post) = (st <- scan s ;; Ok (finish st))).
Proof.
  split; [exact IsSpace_whiteSpace|].
  split; [exact asciiSpace_iff|].
  split; [|split].
  - intros rs1 s rs2 H1 H2 Hb He.
    pose proof (TrimSpace_whites rs1 s rs2 H1 H2 Hb He) as H.
    split; [exact H | unfold Parse; rewrite H; reflexivity].
  - intros input.
    destruct (TrimSpace_decompose input) as (rs1 & rs2 & H1 & H2 & Hi & Hb & He).
    exists rs1, rs2; repeat split; auto.
  - intros pre s post Hpre Hpost Hs.
    pose proof (TrimSpace_around pre s post Hpre Hpost Hs) as H.
    split; [exact H | unfold Parse; rewrite H; reflexivity].
Qed.

Lemma Parse_trims_white_space_witness :
  strings.TrimSpace
    (string_of_runes [11; 160] ++ [byte_of 195; byte_of 169; " "%char; "x"%char]
     ++ string_of_runes [8195; 12])
  = [byte_of 195; byte_of 169; " "%char; "x"%char]
  /\ strings.TrimSpace ([bVTab; bSpace] ++ lit "ls -l" ++ [bFormFeed; bNewline])
     = lit "ls -l".
Proof.
  split.
  - apply (proj1 (proj2 (proj2 Parse_trims_white_space))); vm_compute; reflexivity.
  - apply (proj2 (proj2 (proj2 (proj2 Parse_trims_white_space)))).
    + repeat (apply Forall_cons; [split; vm_compute; reflexivity|]); apply Forall_nil.
    + repeat (apply Forall_cons; [split; vm_compute; reflexivity|]); apply Forall_nil.
    + split; split; vm_compute; reflexivity.
Defined.
